(** * Astral Motors: the quantitative financing engine

    A shallow embedding of the payment ledger, the commit engine, the plan
    factory, the payment scheduler and the on-track evaluator of the
    Astral Motors web application, together with the properties that the
    specification states about them.

    Modelling conventions.
    - A JavaScript [number] is an exact rational extended with [NaN],
      [+Infinity] and [-Infinity] (module [Num]).  Finite arithmetic is exact:
      binary64 rounding and the sign of zero are not represented.  The
      statements therefore rest on the expressions that the program
      evaluates and on the order and the sign of their results, which
      rounding keeps, and not on exact cancellation.  The day of the
      month and the YYYYMM marker are typed [Z], and so are the terms: the
      term fields count whole years, and a term entered with a fraction is
      outside the model.
    - A JavaScript [Date] is its time value, in milliseconds of local time
      since the epoch (module [JSDate]); the calendar functions follow the
      definitions of ECMA-262 with a constant zone offset.  Dates are taken
      inside the representable range and every ISO string held by a record is
      the date it was printed from.
    - [new Date()] is an explicit argument [now] of each handler. *)

From Stdlib Require Import ZArith QArith Qcanon Qround Lia Lqa.
From Stdlib Require Import List String Bool Permutation Sorted.
Import ListNotations.

(* ================================================================== *)
(** ** JavaScript numbers *)

Module Num.

Inductive number : Type :=
| Fin (q : Qc)
| PInf
| NInf
| NaN.

Definition of_Q (q : Q) : number := Fin (Q2Qc q).
Definition of_Z (z : Z) : number := of_Q (inject_Z z).
(** The decimal literal [n / d]. *)
Definition lit (n : Z) (d : positive) : number := of_Q (n # d).

Definition Qc_eqb (x y : Qc) : bool := Qeq_bool x y.
Definition Qc_leb (x y : Qc) : bool := Qle_bool x y.
Definition Qc_ltb (x y : Qc) : bool := negb (Qle_bool y x).

Definition neg (a : number) : number :=
  match a with
  | Fin x => Fin (- x)
  | PInf => NInf
  | NInf => PInf
  | NaN => NaN
  end.

Definition add (a b : number) : number :=
  match a, b with
  | NaN, _ | _, NaN => NaN
  | PInf, NInf | NInf, PInf => NaN
  | PInf, _ | _, PInf => PInf
  | NInf, _ | _, NInf => NInf
  | Fin x, Fin y => Fin (x + y)
  end.

Definition sub (a b : number) : number := add a (neg b).

(** An infinity scaled by a finite factor. *)
Definition scale_inf (inf : number) (x : Qc) : number :=
  if Qc_eqb x 0 then NaN
  else if Qc_ltb 0 x then inf else neg inf.

Definition mul (a b : number) : number :=
  match a, b with
  | NaN, _ | _, NaN => NaN
  | Fin x, Fin y => Fin (x * y)
  | Fin x, inf | inf, Fin x => scale_inf inf x
  | PInf, PInf | NInf, NInf => PInf
  | PInf, NInf | NInf, PInf => NInf
  end.

Definition div (a b : number) : number :=
  match a, b with
  | NaN, _ | _, NaN => NaN
  | Fin x, Fin y =>
      if Qc_eqb y 0 then
        (if Qc_eqb x 0 then NaN else if Qc_ltb 0 x then PInf else NInf)
      else Fin (x / y)
  | Fin _, _ => Fin 0
  | inf, Fin y => if Qc_leb 0 y then inf else neg inf
  | _, _ => NaN
  end.

(** Relational operators: every comparison with [NaN] is false. *)
Definition leb (a b : number) : bool :=
  match a, b with
  | NaN, _ | _, NaN => false
  | NInf, _ | _, PInf => true
  | PInf, _ | _, NInf => false
  | Fin x, Fin y => Qc_leb x y
  end.

Definition ltb (a b : number) : bool :=
  match a, b with
  | NaN, _ | _, NaN => false
  | PInf, _ | _, NInf => false
  | NInf, _ | _, PInf => true
  | Fin x, Fin y => Qc_ltb x y
  end.

Definition geb (a b : number) : bool := leb b a.
Definition gtb (a b : number) : bool := ltb b a.

(** Strict equality [===] on numbers. *)
Definition eqb (a b : number) : bool :=
  match a, b with
  | Fin x, Fin y => Qc_eqb x y
  | PInf, PInf | NInf, NInf => true
  | _, _ => false
  end.

(** [ToBoolean]: zero and [NaN] are falsy. *)
Definition truthy (a : number) : bool :=
  match a with
  | Fin x => negb (Qc_eqb x 0)
  | NaN => false
  | _ => true
  end.

Definition Math_max (a b : number) : number :=
  match a, b with
  | NaN, _ | _, NaN => NaN
  | _, _ => if leb a b then b else a
  end.

Definition Math_min (a b : number) : number :=
  match a, b with
  | NaN, _ | _, NaN => NaN
  | _, _ => if leb a b then a else b
  end.

Definition Math_floor (a : number) : number :=
  match a with
  | Fin x => of_Z (Qfloor x)
  | _ => a
  end.

(** [Math.pow] at an integer exponent. *)
Definition Math_pow (b : number) (e : Z) : number :=
  match e with
  | Z0 => Fin 1
  | Zpos p =>
      match b with
      | Fin x => Fin (x ^ Pos.to_nat p)
      | PInf => PInf
      | NInf => if Z.odd e then NInf else PInf
      | NaN => NaN
      end
  | Zneg p =>
      match b with
      | Fin x => div (Fin 1) (Fin (x ^ Pos.to_nat p))
      | PInf | NInf => Fin 0
      | NaN => NaN
      end
  end.

Definition is_finite (a : number) : Prop :=
  match a with Fin _ => True | _ => False end.


Declare Scope num_scope.
Delimit Scope num_scope with num.
Bind Scope num_scope with number.
Infix "+" := add : num_scope.
Infix "-" := sub : num_scope.
Infix "*" := mul : num_scope.
Infix "/" := div : num_scope.
Infix "<=?" := leb : num_scope.
Infix "<?" := ltb : num_scope.
Infix ">=?" := geb : num_scope.
Infix ">?" := gtb : num_scope.
Infix "=?" := eqb : num_scope.

End Num.

(* ================================================================== *)
(** ** JavaScript dates (ECMA-262, Date objects) *)

Module JSDate.
Local Open Scope Z_scope.

(** The time value of a [Date]. *)
Definition Date : Type := Z.

Definition msPerDay : Z := 86400000.

Definition Day (t : Z) : Z := t / msPerDay.
Definition TimeWithinDay (t : Z) : Z := t mod msPerDay.

Definition DaysInYear (y : Z) : Z :=
  if negb (y mod 4 =? 0) then 365
  else if negb (y mod 100 =? 0) then 366
  else if negb (y mod 400 =? 0) then 365
  else 366.

Definition DayFromYear (y : Z) : Z :=
  365 * (y - 1970) + (y - 1969) / 4 - (y - 1901) / 100 + (y - 1601) / 400.

Definition TimeFromYear (y : Z) : Z := msPerDay * DayFromYear y.

(** The year of a day number: the largest [y] with [DayFromYear y <= d],
    found from the mean year length and corrected by at most one. *)
Definition yearFromDay (d : Z) : Z :=
  let y0 := 1970 + (400 * d) / 146097 in
  if d <? DayFromYear y0 then y0 - 1
  else if DayFromYear (y0 + 1) <=? d then y0 + 1
  else y0.

Definition YearFromTime (t : Z) : Z := yearFromDay (Day t).

Definition InLeapYear (t : Z) : Z :=
  if DaysInYear (YearFromTime t) =? 366 then 1 else 0.

Definition DayWithinYear (t : Z) : Z := Day t - DayFromYear (YearFromTime t).

Definition MonthFromTime (t : Z) : Z :=
  let d := DayWithinYear t in
  let l := InLeapYear t in
  if d <? 31 then 0
  else if d <? 59 + l then 1
  else if d <? 90 + l then 2
  else if d <? 120 + l then 3
  else if d <? 151 + l then 4
  else if d <? 181 + l then 5
  else if d <? 212 + l then 6
  else if d <? 243 + l then 7
  else if d <? 273 + l then 8
  else if d <? 304 + l then 9
  else if d <? 334 + l then 10
  else 11.

Definition DateFromTime (t : Z) : Z :=
  let d := DayWithinYear t in
  let l := InLeapYear t in
  match MonthFromTime t with
  | 0 => d + 1
  | 1 => d - 30
  | 2 => d - 58 - l
  | 3 => d - 89 - l
  | 4 => d - 119 - l
  | 5 => d - 150 - l
  | 6 => d - 180 - l
  | 7 => d - 211 - l
  | 8 => d - 242 - l
  | 9 => d - 272 - l
  | 10 => d - 303 - l
  | _ => d - 333 - l
  end.

(** Days of the year that precede month [mn] (0..11); [l] is 1 in a leap
    year. *)
Definition daysBeforeMonth (mn l : Z) : Z :=
  match mn with
  | 0 => 0
  | 1 => 31
  | 2 => 59 + l
  | 3 => 90 + l
  | 4 => 120 + l
  | 5 => 151 + l
  | 6 => 181 + l
  | 7 => 212 + l
  | 8 => 243 + l
  | 9 => 273 + l
  | 10 => 304 + l
  | _ => 334 + l
  end.

Definition leapDays (y : Z) : Z := DaysInYear y - 365.

(** Number of days of month [mn] (0..11) of year [y]. *)
Definition DaysInMonth (y mn : Z) : Z :=
  match mn with
  | 1 => 28 + leapDays y
  | 3 | 5 | 8 | 10 => 30
  | _ => 31
  end.

Definition MakeTime (hour min sec ms : Z) : Z :=
  hour * 3600000 + min * 60000 + sec * 1000 + ms.

(** [MakeDay]: the month is carried into the year, the date is added to
    the day number of the first of that month, whatever its size. *)
Definition MakeDay (year month date : Z) : Z :=
  let ym := year + month / 12 in
  let mn := month mod 12 in
  DayFromYear ym + daysBeforeMonth mn (leapDays ym) + date - 1.

Definition MakeDate (day time : Z) : Z := day * msPerDay + time.

(** [new Date(year, month, date)]; a year in 0..99 means 1900 + year. *)
Definition newDate (year month date : Z) : Date :=
  let yr := if (0 <=? year) && (year <=? 99) then 1900 + year else year in
  MakeDate (MakeDay yr month date) (MakeTime 0 0 0 0).

Definition getTime (d : Date) : Z := d.
Definition getFullYear (d : Date) : Z := YearFromTime d.
Definition getMonth (d : Date) : Z := MonthFromTime d.
Definition getDate (d : Date) : Z := DateFromTime d.

(** [d.setHours(hour, min, sec, ms)]: the new time value. *)
Definition setHours (d : Date) (hour min sec ms : Z) : Date :=
  MakeDate (Day d) (MakeTime hour min sec ms).

End JSDate.

(* ================================================================== *)
(** ** Data model ([types.ts]) *)

Import Num.
Local Open Scope string_scope.
Local Open Scope list_scope.

Module ToyotaVehicle.
Record t : Type := mk {
  model : string;
  price : number;
  description : string;
  image : string;
  tags_style : string;
  tags_useCase : string;
  seatingCapacity : Z;
  specialOffer : option string
}.
End ToyotaVehicle.

Module UserInput.
Record t : Type := mk {
  income : number;
  creditScore : number;
  downPayment : number;
  loanTerm : Z;   (* in years *)
  minSeats : Z;
  preferences_style : list string;
  preferences_useCase : list string;
  preferences_description : string
}.
End UserInput.

Module SimpleFinancingPlan.
Record t : Type := mk {
  monthlyPayment : number;
  totalCost : number;
  interestRate : number;
  loanAmount : number
}.
End SimpleFinancingPlan.

Module FinancingPlan.
Record t : Type := mk {
  monthlyPayment : number;
  totalCost : number;
  interestRate : number;
  loanAmount : number;
  loanTerm : Z   (* years *)
}.
End FinancingPlan.

Module LeasingPlan.
Record t : Type := mk {
  monthlyPayment : number;
  dueAtSigning : number;
  term : Z;   (* months *)
  moneyFactor : number;
  residualValue : number
}.
End LeasingPlan.

(** The union discriminated by [planType]. *)
Inductive VehiclePlan : Type :=
| Financing (p : FinancingPlan.t)
| Leasing (p : LeasingPlan.t).

Inductive PlanType : Type := PFinancing | PLeasing.

Module SavedAlignment.
Record t : Type := mk {
  id : string;
  vehicle : ToyotaVehicle.t;
  userInput : UserInput.t;
  plan : VehiclePlan;
  savedAt : string
}.
End SavedAlignment.

Module ActiveLoan.
Record t : Type := mk {
  id : string;
  vehicleModel : string;
  imageUrl : string;
  monthlyPayment : number;
  totalCost : number;
  loanStartDate : JSDate.Date;
  loanTermInMonths : Z;
  paymentDayOfMonth : Z;
  color : string;
  amountLeft : number;
  planType : PlanType;
  lastPaymentMonth : option Z;        (* YYYYMM *)
  initialLoanAmount : option number
}.

(** [{ ...loan, amountLeft: v }] *)
Definition with_amountLeft (loan : t) (v : number) : t :=
  mk (id loan) (vehicleModel loan) (imageUrl loan) (monthlyPayment loan)
     (totalCost loan) (loanStartDate loan) (loanTermInMonths loan)
     (paymentDayOfMonth loan) (color loan) v (planType loan)
     (lastPaymentMonth loan) (initialLoanAmount loan).

(** [{ ...loan, lastPaymentMonth: v }] *)
Definition with_lastPaymentMonth (loan : t) (v : Z) : t :=
  mk (id loan) (vehicleModel loan) (imageUrl loan) (monthlyPayment loan)
     (totalCost loan) (loanStartDate loan) (loanTermInMonths loan)
     (paymentDayOfMonth loan) (color loan) (amountLeft loan) (planType loan)
     (Some v) (initialLoanAmount loan).
End ActiveLoan.

Inductive Sender : Type := SenderUser | SenderAi.

Module ChatMessage.
Record t : Type := mk { sender : Sender; text : string }.
End ChatMessage.

Definition Conversation : Type := list ChatMessage.t.

Module UserData.
Record t : Type := mk {
  userInput : UserInput.t;
  savedAlignments : list SavedAlignment.t;
  chatbotConversations : list Conversation;
  activeLoans : list ActiveLoan.t
}.

(** [{ ...prev, activeLoans: v }] *)
Definition with_activeLoans (prev : t) (v : list ActiveLoan.t) : t :=
  mk (userInput prev) (savedAlignments prev) (chatbotConversations prev) v.

(** [{ ...prev, userInput: v }] *)
Definition with_userInput (prev : t) (v : UserInput.t) : t :=
  mk v (savedAlignments prev) (chatbotConversations prev) (activeLoans prev).

(** [{ ...prev, savedAlignments: v }] *)
Definition with_savedAlignments (prev : t) (v : list SavedAlignment.t) : t :=
  mk (userInput prev) v (chatbotConversations prev) (activeLoans prev).
End UserData.

Module VehicleRecommendation.
(** A [ToyotaVehicle] extended with its card plan and the match flag. *)
Record t : Type := mk {
  vehicle : ToyotaVehicle.t;
  financingPlan : SimpleFinancingPlan.t;
  isTopMatch : bool
}.
Definition price (r : t) : number := ToyotaVehicle.price (vehicle r).
End VehicleRecommendation.

(* ================================================================== *)
(** ** Arrays ([Array.prototype]) *)

Module JSArray.

(** How [sort] reads the value of the comparator: the first argument goes
    after the second only when the value is above zero ([NaN] counts as
    [+0]). *)
Definition goes_after (v : number) : bool := Num.gtb v (of_Z 0).

Fixpoint insert {A} (cmp : A -> A -> number) (x : A) (l : list A) : list A :=
  match l with
  | [] => [x]
  | y :: ys => if goes_after (cmp x y) then y :: insert cmp x ys
               else x :: y :: ys
  end.

(** [Array.prototype.sort] with a number-valued comparator: the stable
    sort, which is what every engine returns when the comparator is
    consistent on the array. *)
Definition sort {A} (cmp : A -> A -> number) (l : list A) : list A :=
  fold_right (insert cmp) [] l.

(** [Array.prototype.includes] on strings. *)
Definition includes (l : list string) (s : string) : bool :=
  existsb (fun x => String.eqb x s) l.

End JSArray.

(* ================================================================== *)
(** ** The application shell ([App]): rate model, amortization, commit
       engine and payment ledger *)

Module App.
Local Open Scope num_scope.

Definition GALAXY_COLORS : list string :=
  ["#9b59b6"; "#3498db"; "#1abc9c"; "#e74c3c"; "#f1c40f"; "#2ecc71";
   "#e67e22"].

Definition getInterestRate (score : number) : number :=
  if score >=? of_Z 760 then lit 5 100
  else if score >=? of_Z 700 then lit 65 1000
  else if score >=? of_Z 650 then lit 8 100
  else if score >=? of_Z 600 then lit 12 100
  else lit 18 100.

Definition calculateMonthlyPayment
    (principal annualRate : number) (years : Z) : number :=
  if principal <=? of_Z 0 then of_Z 0
  else
    let monthlyRate := annualRate / of_Z 12 in
    let numberOfPayments := (years * 12)%Z in
    if monthlyRate =? of_Z 0 then principal / of_Z numberOfPayments
    else
      principal
      * (monthlyRate * Math_pow (of_Z 1 + monthlyRate) numberOfPayments)
      / (Math_pow (of_Z 1 + monthlyRate) numberOfPayments - of_Z 1).

(** The card plan computed for each recommended vehicle
    ([finalVehicleRecommendations]). *)
Definition recommendationPlan
    (price downPayment : number) (loanTerm : Z) (interestRate : number)
    : SimpleFinancingPlan.t :=
  let loanAmount := price - downPayment in
  let monthlyPayment :=
    calculateMonthlyPayment loanAmount interestRate loanTerm in
  let totalCost := monthlyPayment * of_Z (loanTerm * 12) + downPayment in
  SimpleFinancingPlan.mk monthlyPayment totalCost interestRate loanAmount.

(** What a state updater leaves behind: the next state and the lines it
    wrote with [console.warn]. *)
Definition Update (A : Type) : Type := (A * list string)%type.
Definition ret {A} (a : A) : Update A := (a, []).
Definition warn {A} (msg : string) (a : A) : Update A := (a, [msg]).

Definition plan_not_found : string := "Plan not found.".
Definition already_committed : string :=
  "This plan has already been committed.".

(** The obligation built from a saved plan; [count] is the number of
    obligations already held. *)
Definition newLoan
    (now : JSDate.Date) (count : nat) (a : SavedAlignment.t)
    : ActiveLoan.t :=
  match SavedAlignment.plan a with
  | Financing plan =>
      ActiveLoan.mk
        (SavedAlignment.id a)
        (ToyotaVehicle.model (SavedAlignment.vehicle a))
        (ToyotaVehicle.image (SavedAlignment.vehicle a))
        (FinancingPlan.monthlyPayment plan)
        (FinancingPlan.totalCost plan)
        now
        (FinancingPlan.loanTerm plan * 12)%Z
        (JSDate.getDate now)
        (List.nth (Nat.modulo count (List.length GALAXY_COLORS))
                  GALAXY_COLORS EmptyString)
        (FinancingPlan.loanAmount plan)
        PFinancing
        None
        (Some (FinancingPlan.loanAmount plan))
  | Leasing plan =>
      ActiveLoan.mk
        (SavedAlignment.id a)
        (ToyotaVehicle.model (SavedAlignment.vehicle a))
        (ToyotaVehicle.image (SavedAlignment.vehicle a))
        (LeasingPlan.monthlyPayment plan)
        (LeasingPlan.monthlyPayment plan * of_Z (LeasingPlan.term plan))
        now
        (LeasingPlan.term plan)
        (JSDate.getDate now)
        (List.nth (Nat.modulo count (List.length GALAXY_COLORS))
                  GALAXY_COLORS EmptyString)
        (of_Z 0)
        PLeasing
        None
        None
  end.

(** [prev.savedAlignments.find(a => a.id === alignmentId)] *)
Definition findAlignment (alignmentId : string) (prev : UserData.t)
    : option SavedAlignment.t :=
  find (fun a => String.eqb (SavedAlignment.id a) alignmentId)
       (UserData.savedAlignments prev).

(** [prev.activeLoans.some(loan => loan.id === alignmentToCommit.id)] *)
Definition loanExists (alignmentToCommit : SavedAlignment.t)
    (prev : UserData.t) : bool :=
  existsb (fun loan => String.eqb (ActiveLoan.id loan)
                         (SavedAlignment.id alignmentToCommit))
          (UserData.activeLoans prev).

Definition handleCommitAlignment
    (now : JSDate.Date) (alignmentId : string) (prev : option UserData.t)
    : Update (option UserData.t) :=
  match prev with
  | None => ret None
  | Some prev =>
      match findAlignment alignmentId prev with
      | None => warn plan_not_found (Some prev)
      | Some alignmentToCommit =>
          if loanExists alignmentToCommit prev
          then warn already_committed (Some prev)
          else
            let loan :=
              newLoan now (List.length (UserData.activeLoans prev))
                      alignmentToCommit in
            ret (Some (UserData.with_activeLoans prev
                         (UserData.activeLoans prev ++ [loan])))
      end
  end.

(** The callback that [handleMakePayment] maps over the obligations; its
    two readings of the clock are the one [now]. *)
Definition payLoan
    (now : JSDate.Date) (loanId : string) (amount : number)
    (loan : ActiveLoan.t) : ActiveLoan.t :=
  if String.eqb (ActiveLoan.id loan) loanId then
    match ActiveLoan.planType loan with
    | PLeasing =>
        let currentMonthIdentifier :=
          (JSDate.getFullYear now * 100 + JSDate.getMonth now)%Z in
        ActiveLoan.with_lastPaymentMonth loan currentMonthIdentifier
    | PFinancing =>
        ActiveLoan.with_amountLeft loan
          (Math_max (of_Z 0) (ActiveLoan.amountLeft loan - amount))
    end
  else loan.

Definition handleMakePayment
    (now : JSDate.Date) (loanId : string) (amount : number)
    (prev : option UserData.t) : option UserData.t :=
  match prev with
  | None => None
  | Some prev =>
      let updatedLoans :=
        map (payLoan now loanId amount) (UserData.activeLoans prev) in
      Some (UserData.with_activeLoans prev updatedLoans)
  end.

(** [setUserInput] with a functional updater. *)
Definition setUserInput
    (updater : UserInput.t -> UserInput.t) (prev : option UserData.t)
    : option UserData.t :=
  match prev with
  | None => None
  | Some prev =>
      let newUserInput := updater (UserData.userInput prev) in
      Some (UserData.with_userInput prev newUserInput)
  end.

Section SavedPlans.
(** [new Date(s).getTime()]: the parser of date strings belongs to the
    host and is a parameter; it answers [NaN] on a string that is not a
    date. *)
Variable Date_parse : string -> number.

Definition handleSaveAlignment
    (alignment : SavedAlignment.t) (prev : option UserData.t)
    : option UserData.t :=
  match prev with
  | None => None
  | Some prev =>
      let newAlignments := alignment :: UserData.savedAlignments prev in
      let newAlignments :=
        JSArray.sort
          (fun a b => Date_parse (SavedAlignment.savedAt b)
                      - Date_parse (SavedAlignment.savedAt a))
          newAlignments in
      Some (UserData.with_savedAlignments prev newAlignments)
  end.
End SavedPlans.

Definition handleDeleteAlignment (id : string) (prev : option UserData.t)
    : option UserData.t :=
  match prev with
  | None => None
  | Some prev =>
      let updatedAlignments :=
        filter (fun a => negb (String.eqb (SavedAlignment.id a) id))
               (UserData.savedAlignments prev) in
      Some (UserData.with_savedAlignments prev updatedAlignments)
  end.

Definition handleClearAllAlignments (prev : option UserData.t)
    : option UserData.t :=
  match prev with
  | Some prev => Some (UserData.with_savedAlignments prev [])
  | None => None
  end.

(** The price range and the rate derived from the user's input. *)
Record PriceRange : Type := mkPriceRange { min : number; max : number }.

Definition affordability (userData : option UserData.t)
    : PriceRange * number :=
  match userData with
  | None => (mkPriceRange (of_Z 0) (of_Z 0), lit 1 10)
  | Some userData =>
      let income := UserInput.income (UserData.userInput userData) in
      let creditScore :=
        UserInput.creditScore (UserData.userInput userData) in
      let downPayment :=
        UserInput.downPayment (UserData.userInput userData) in
      let loanTerm := UserInput.loanTerm (UserData.userInput userData) in
      let monthlyIncome := income / of_Z 12 in
      let maxMonthlyPayment := monthlyIncome * lit 15 100 in
      let rate := getInterestRate creditScore in
      let monthlyInterestRate := rate / of_Z 12 in
      let numberOfPayments := (loanTerm * 12)%Z in
      let maxLoanAmount :=
        maxMonthlyPayment
        * ((Math_pow (of_Z 1 + monthlyInterestRate) numberOfPayments
            - of_Z 1)
           / (monthlyInterestRate
              * Math_pow (of_Z 1 + monthlyInterestRate) numberOfPayments)) in
      let maxCarPrice := maxLoanAmount + downPayment in
      (mkPriceRange (maxCarPrice * lit 7 10) maxCarPrice, rate)
  end.

Definition affordablePriceRange (userData : option UserData.t) : PriceRange :=
  fst (affordability userData).
Definition interestRate (userData : option UserData.t) : number :=
  snd (affordability userData).

(** The fleet is a constant of the application and a parameter here. *)
Definition locallyFilteredVehicles
    (TOYOTA_FLEET : list ToyotaVehicle.t) (userData : option UserData.t)
    : list ToyotaVehicle.t :=
  match userData with
  | None => []
  | Some userData =>
      let input := UserData.userInput userData in
      filter
        (fun vehicle =>
           let styleMatch :=
             (List.length (UserInput.preferences_style input) =? 0)%nat
             || JSArray.includes (UserInput.preferences_style input)
                                 (ToyotaVehicle.tags_style vehicle) in
           let useCaseMatch :=
             (List.length (UserInput.preferences_useCase input) =? 0)%nat
             || JSArray.includes (UserInput.preferences_useCase input)
                                 (ToyotaVehicle.tags_useCase vehicle) in
           let seatsMatch :=
             (ToyotaVehicle.seatingCapacity vehicle
                >=? UserInput.minSeats input)%Z in
           styleMatch && useCaseMatch && seatsMatch)
        TOYOTA_FLEET
  end.

(** The vehicles handed to the advisor: the affordable ones, or the three
    cheapest matches when none is affordable. *)
Definition vehiclesForGemini
    (TOYOTA_FLEET : list ToyotaVehicle.t) (userData : option UserData.t)
    : list ToyotaVehicle.t :=
  let locallyFiltered := locallyFilteredVehicles TOYOTA_FLEET userData in
  let vehiclesForGemini :=
    filter (fun v => ToyotaVehicle.price v
                     <=? max (affordablePriceRange userData))
           locallyFiltered in
  if (List.length vehiclesForGemini =? 0)%nat
     && (0 <? List.length locallyFiltered)%nat
  then firstn 3 (JSArray.sort
                   (fun a b => ToyotaVehicle.price a - ToyotaVehicle.price b)
                   locallyFiltered)
  else vehiclesForGemini.

(** [topModels] is the advisor's list of recommended models. *)
Definition finalVehicleRecommendations
    (TOYOTA_FLEET : list ToyotaVehicle.t) (userData : option UserData.t)
    (topModels : list string) : list VehicleRecommendation.t :=
  match userData with
  | None => []
  | Some ud =>
      let downPayment := UserInput.downPayment (UserData.userInput ud) in
      let loanTerm := UserInput.loanTerm (UserData.userInput ud) in
      let allMatchingVehicles :=
        filter (fun v => ToyotaVehicle.price v
                         <=? max (affordablePriceRange userData) * lit 11 10)
               (locallyFilteredVehicles TOYOTA_FLEET userData) in
      let recommendations :=
        map (fun vehicle =>
               VehicleRecommendation.mk
                 vehicle
                 (recommendationPlan (ToyotaVehicle.price vehicle)
                                     downPayment loanTerm
                                     (interestRate userData))
                 (JSArray.includes topModels (ToyotaVehicle.model vehicle)))
            allMatchingVehicles in
      JSArray.sort
        (fun a b =>
           if VehicleRecommendation.isTopMatch a
              && negb (VehicleRecommendation.isTopMatch b)
           then of_Z (-1)
           else if negb (VehicleRecommendation.isTopMatch a)
                   && VehicleRecommendation.isTopMatch b
           then of_Z 1
           else VehicleRecommendation.price a - VehicleRecommendation.price b)
        recommendations
  end.

End App.

(* ================================================================== *)
(** ** The plan factory ([FinancingPage]) *)

Module FinancingPage.
Local Open Scope num_scope.

Definition financingPlan
    (price : number) (userInput : UserInput.t) (interestRate : number)
    : FinancingPlan.t :=
  let downPayment := UserInput.downPayment userInput in
  let loanTerm := UserInput.loanTerm userInput in
  let loanAmount := price - downPayment in
  let monthlyRate := interestRate / of_Z 12 in
  let numberOfPayments := (loanTerm * 12)%Z in
  let monthlyPayment :=
    if loanAmount >? of_Z 0 then
      loanAmount
      * (monthlyRate * Math_pow (of_Z 1 + monthlyRate) numberOfPayments)
      / (Math_pow (of_Z 1 + monthlyRate) numberOfPayments - of_Z 1)
    else of_Z 0 in
  let totalCost := monthlyPayment * of_Z numberOfPayments + downPayment in
  FinancingPlan.mk monthlyPayment totalCost interestRate loanAmount loanTerm.

Definition leasingPlan
    (price : number) (userInput : UserInput.t) (interestRate : number)
    : LeasingPlan.t :=
  let leaseTermMonths := 36%Z in
  let moneyFactor := interestRate / of_Z 2400 in
  let residualValueRate := lit 55 100 in
  let residualValue := price * residualValueRate in
  let capitalizedCost := price - UserInput.downPayment userInput in
  let depreciationFee :=
    (capitalizedCost - residualValue) / of_Z leaseTermMonths in
  let financeFee := (capitalizedCost + residualValue) * moneyFactor in
  let monthlyPayment := depreciationFee + financeFee in
  LeasingPlan.mk monthlyPayment
                 (UserInput.downPayment userInput + monthlyPayment)
                 leaseTermMonths moneyFactor residualValue.

(** [handleSave] stores the plan that is currently displayed. *)
Definition currentPlan
    (planType : PlanType) (price : number) (userInput : UserInput.t)
    (interestRate : number) : VehiclePlan :=
  match planType with
  | PFinancing => Financing (financingPlan price userInput interestRate)
  | PLeasing => Leasing (leasingPlan price userInput interestRate)
  end.

End FinancingPage.

(* ================================================================== *)
(** ** The payment form ([PaymentModal]) *)

Module PaymentModal.
Local Open Scope num_scope.

Definition floorToCent (num : number) : number :=
  Math_floor (num * of_Z 100) / of_Z 100.

(** [handleSubmit]: [onPaymentSubmit] is the ledger's handler; the form
    state [amount] and the displayed [loan] are arguments.  The "paid"
    banner and the closing timer of the dialog are display state and are
    left out. *)
Definition handleSubmit {S : Type}
    (onPaymentSubmit : string -> number -> S -> S)
    (loan : option ActiveLoan.t) (amount : number) (st : S) : S :=
  match loan with
  | None => st
  | Some loan =>
      if amount <=? of_Z 0 then st
      else
        let finalAmount := floorToCent amount in
        onPaymentSubmit (ActiveLoan.id loan) finalAmount st
  end.

(** The amount that the dialog proposes when it opens on [loan]. *)
Definition initialAmount (loan : ActiveLoan.t) : number :=
  match ActiveLoan.planType loan with
  | PLeasing => floorToCent (ActiveLoan.monthlyPayment loan)
  | PFinancing =>
      floorToCent (Math_min (ActiveLoan.monthlyPayment loan)
                            (ActiveLoan.amountLeft loan))
  end.

(** The [max] attribute of the amount field. *)
Definition amountMax (loan : ActiveLoan.t) : number :=
  floorToCent (match ActiveLoan.planType loan with
               | PFinancing => ActiveLoan.amountLeft loan
               | PLeasing => ActiveLoan.monthlyPayment loan
               end).

(** Constraint validation of the amount field.  The field is [required]
    and declares [min="0.01"], [step="0.01"] and the [max] above, and the
    form carries no [noValidate]: a click on the submit button reaches
    [handleSubmit] only when the value of the field is a number from [min]
    to [max] that lies a whole number of steps above [min]. *)
Definition amountMin : number := lit 1 100.
Definition amountStep : number := lit 1 100.

Definition stepMatches (amount : number) : bool :=
  match amount with
  | Fin _ =>
      let steps := (amount - amountMin) / amountStep in
      Math_floor steps =? steps
  | _ => false
  end.

Definition amountFieldValid (loan : ActiveLoan.t) (amount : number) : bool :=
  (amountMin <=? amount) && (amount <=? amountMax loan)
  && stepMatches amount.

(** A click on the submit button of the dialog that shows [loan]: the
    dialog renders nothing without a loan. *)
Definition submitForm {S : Type}
    (onPaymentSubmit : string -> number -> S -> S)
    (loan : option ActiveLoan.t) (amount : number) (st : S) : S :=
  match loan with
  | None => st
  | Some l =>
      if amountFieldValid l amount
      then handleSubmit onPaymentSubmit loan amount st
      else st
  end.

End PaymentModal.

(* ================================================================== *)
(** ** The input panel ([FinanceControls]) *)

Module FinanceControls.

(** The score that [handleCreditScoreChange] stores. *)
Definition handleCreditScoreChange (value : number) : number :=
  Math_max (of_Z 300) (Math_min (of_Z 850) value).

Inductive Category : Type := CStyle | CUseCase.

(** The list of [category] after [handlePrefChange]. *)
Definition newPrefs (currentPrefs : list string) (value : string)
    (checked : bool) : list string :=
  if checked then currentPrefs ++ [value]
  else filter (fun item => negb (String.eqb item value)) currentPrefs.

Definition handlePrefChange
    (category : Category) (value : string) (checked : bool)
    (prev : UserInput.t) : UserInput.t :=
  match category with
  | CStyle =>
      UserInput.mk (UserInput.income prev) (UserInput.creditScore prev)
        (UserInput.downPayment prev) (UserInput.loanTerm prev)
        (UserInput.minSeats prev)
        (newPrefs (UserInput.preferences_style prev) value checked)
        (UserInput.preferences_useCase prev)
        (UserInput.preferences_description prev)
  | CUseCase =>
      UserInput.mk (UserInput.income prev) (UserInput.creditScore prev)
        (UserInput.downPayment prev) (UserInput.loanTerm prev)
        (UserInput.minSeats prev)
        (UserInput.preferences_style prev)
        (newPrefs (UserInput.preferences_useCase prev) value checked)
        (UserInput.preferences_description prev)
  end.

End FinanceControls.

(* ================================================================== *)
(** ** Scheduler and on-track evaluator ([MyTimelinePage]) *)

Module MyTimelinePage.
Local Open Scope Z_scope.

Module Payment.
Record t : Type := mk {
  date : JSDate.Date;
  vehicle : ActiveLoan.t;
  remaining : Z
}.
End Payment.

(** [Array.prototype.sort] with a comparator: the stable sort. *)
Fixpoint sort_insert {A} (cmp : A -> A -> Z) (x : A) (l : list A) : list A :=
  match l with
  | [] => [x]
  | y :: ys => if cmp x y <=? 0 then x :: y :: ys
               else y :: sort_insert cmp x ys
  end.

Definition Array_sort {A} (cmp : A -> A -> Z) (l : list A) : list A :=
  fold_right (sort_insert cmp) [] l.

(** The [for] loop over one vehicle: [n] iterations are left, [i] is the
    loop counter, [payments] the array being pushed to. *)
Fixpoint paymentLoop
    (today : JSDate.Date) (vehicle : ActiveLoan.t)
    (loanStartDate : JSDate.Date) (n : nat) (i : Z)
    (payments : list Payment.t) : list Payment.t :=
  match n with
  | O => payments
  | S n' =>
      let paymentDate :=
        JSDate.newDate (JSDate.getFullYear loanStartDate)
                       (JSDate.getMonth loanStartDate + i)
                       (ActiveLoan.paymentDayOfMonth vehicle) in
      let payments' :=
        if paymentDate >=? today then
          payments ++ [Payment.mk paymentDate vehicle
                         (ActiveLoan.loanTermInMonths vehicle - i)]
        else payments in
      paymentLoop today vehicle loanStartDate n' (i + 1) payments'
  end.

Definition allFuturePayments
    (now : JSDate.Date) (userVehicles : list ActiveLoan.t)
    : list Payment.t :=
  let today := JSDate.setHours now 0 0 0 0 in
  let payments :=
    fold_left
      (fun payments vehicle =>
         let loanStartDate := ActiveLoan.loanStartDate vehicle in
         paymentLoop today vehicle loanStartDate
           (Z.to_nat (ActiveLoan.loanTermInMonths vehicle)) 0 payments)
      userVehicles [] in
  Array_sort
    (fun a b => JSDate.getTime (Payment.date a)
                - JSDate.getTime (Payment.date b))
    payments.

Definition getOnTrackStatus
    (today : JSDate.Date) (vehicle : ActiveLoan.t) : bool :=
  let startDate := ActiveLoan.loanStartDate vehicle in
  match ActiveLoan.planType vehicle with
  | PLeasing =>
      let currentMonthIdentifier :=
        JSDate.getFullYear today * 100 + JSDate.getMonth today in
      let startMonthIdentifier :=
        JSDate.getFullYear startDate * 100 + JSDate.getMonth startDate in
      if match ActiveLoan.lastPaymentMonth vehicle with
         | Some m => m =? currentMonthIdentifier
         | None => false
         end
      then true
      else if (startMonthIdentifier =? currentMonthIdentifier)
              && (JSDate.getDate today
                    <? ActiveLoan.paymentDayOfMonth vehicle)
      then true
      else false
  | PFinancing =>
      if Num.leb (ActiveLoan.amountLeft vehicle) (of_Z 0) then true
      else
        match ActiveLoan.initialLoanAmount vehicle with
        | None => true
        | Some initialLoanAmount =>
            if negb (truthy initialLoanAmount) then true
            else
              let monthsPassed :=
                (JSDate.getFullYear today - JSDate.getFullYear startDate)
                * 12
                + (JSDate.getMonth today - JSDate.getMonth startDate) in
              let paymentsDue :=
                if JSDate.getDate today
                     >=? ActiveLoan.paymentDayOfMonth vehicle
                then monthsPassed + 1 else monthsPassed in
              if paymentsDue <=? 0 then true
              else
                let estimatedPaymentsMade :=
                  Num.div
                    (Num.sub initialLoanAmount
                             (ActiveLoan.amountLeft vehicle))
                    (ActiveLoan.monthlyPayment vehicle) in
                Num.geb estimatedPaymentsMade (of_Z (paymentsDue - 1))
        end
  end.

(** The row of the obligations table for [vehicle]. *)
Definition loanEndDate (vehicle : ActiveLoan.t) : JSDate.Date :=
  let loanStartDate := ActiveLoan.loanStartDate vehicle in
  JSDate.newDate (JSDate.getFullYear loanStartDate)
                 (JSDate.getMonth loanStartDate
                  + ActiveLoan.loanTermInMonths vehicle)
                 (ActiveLoan.paymentDayOfMonth vehicle).

Definition isLease (vehicle : ActiveLoan.t) : bool :=
  match ActiveLoan.planType vehicle with
  | PLeasing => true
  | PFinancing => false
  end.

Definition paymentMadeThisMonth
    (now : JSDate.Date) (vehicle : ActiveLoan.t) : bool :=
  let currentMonthIdentifier :=
    JSDate.getFullYear now * 100 + JSDate.getMonth now in
  isLease vehicle
  && match ActiveLoan.lastPaymentMonth vehicle with
     | Some m => m =? currentMonthIdentifier
     | None => false
     end.

Definition amountLeftDisplay
    (now : JSDate.Date) (vehicle : ActiveLoan.t) : number :=
  if isLease vehicle
  then (if paymentMadeThisMonth now vehicle then of_Z 0
        else ActiveLoan.monthlyPayment vehicle)
  else ActiveLoan.amountLeft vehicle.

(** The [disabled] attribute of the row's pay button. *)
Definition payDisabled (now : JSDate.Date) (vehicle : ActiveLoan.t) : bool :=
  if isLease vehicle then paymentMadeThisMonth now vehicle
  else Num.leb (ActiveLoan.amountLeft vehicle) (of_Z 0).

(** Display settings, keyed by the id of the obligation. *)
Module Setting.
Record t : Type := mk { visible : bool; color : string }.
End Setting.

Definition TimelineSettings : Type := string -> option Setting.t.

Definition noSettings : TimelineSettings := fun _ => None.

(** [{ ...settings, [id]: v }] *)
Definition setSetting (settings : TimelineSettings) (id : string)
    (v : Setting.t) : TimelineSettings :=
  fun k => if String.eqb k id then Some v else settings k.

(** The effect that rebuilds the settings when the obligations change. *)
Definition initSettings
    (userVehicles : list ActiveLoan.t) (prevSettings : TimelineSettings)
    : TimelineSettings :=
  fold_left
    (fun newSettings '(index, vehicle) =>
       let prev := prevSettings (ActiveLoan.id vehicle) in
       let palette :=
         List.nth (Nat.modulo index (List.length App.GALAXY_COLORS))
                  App.GALAXY_COLORS EmptyString in
       setSetting newSettings (ActiveLoan.id vehicle)
         (Setting.mk
            (match prev with
             | Some s => Setting.visible s
             | None => true
             end)
            (match prev with
             | Some s => if String.eqb (Setting.color s) EmptyString
                         then palette else Setting.color s
             | None => palette
             end)))
    (combine (seq 0 (List.length userVehicles)) userVehicles)
    noSettings.

(** [handleToggleVisibility]; reading a missing entry throws, which is
    [None]. *)
Definition handleToggleVisibility (id : string) (prev : TimelineSettings)
    : option TimelineSettings :=
  match prev id with
  | Some s =>
      Some (setSetting prev id
              (Setting.mk (negb (Setting.visible s)) (Setting.color s)))
  | None => None
  end.

(** [settings[v.id]?.visible] as a condition. *)
Definition isVisible (settings : TimelineSettings) (v : ActiveLoan.t)
    : bool :=
  match settings (ActiveLoan.id v) with
  | Some s => Setting.visible s
  | None => false
  end.

(** The schedule drawn by [DetailedTimeline]. *)
Definition allPayments
    (now : JSDate.Date) (vehicles : list ActiveLoan.t)
    (settings : TimelineSettings) : list Payment.t :=
  let visibleVehicles := filter (isVisible settings) vehicles in
  let today := JSDate.setHours now 0 0 0 0 in
  let payments :=
    fold_left
      (fun payments vehicle =>
         let loanStartDate := ActiveLoan.loanStartDate vehicle in
         paymentLoop today vehicle loanStartDate
           (Z.to_nat (ActiveLoan.loanTermInMonths vehicle)) 0 payments)
      visibleVehicles [] in
  Array_sort
    (fun a b => JSDate.getTime (Payment.date a)
                - JSDate.getTime (Payment.date b))
    payments.

(** The right end of the time axis of [DetailedTimeline]. *)
Definition latestEndDate
    (now : JSDate.Date) (vehicles : list ActiveLoan.t)
    (settings : TimelineSettings) : JSDate.Date :=
  fold_left
    (fun latestEndDate vehicle =>
       if loanEndDate vehicle >? latestEndDate then loanEndDate vehicle
       else latestEndDate)
    (filter (isVisible settings) vehicles)
    (JSDate.setHours now 0 0 0 0).

Definition endDate
    (now : JSDate.Date) (vehicles : list ActiveLoan.t)
    (settings : TimelineSettings) : JSDate.Date :=
  let latest := latestEndDate now vehicles settings in
  JSDate.newDate (JSDate.getFullYear latest) (JSDate.getMonth latest + 3) 1.

End MyTimelinePage.

(* ================================================================== *)
(** ** Vocabulary of the statements *)

(** Every field but [amountLeft] agrees. *)
Definition same_but_amountLeft (old new : ActiveLoan.t) : Prop :=
  ActiveLoan.id new = ActiveLoan.id old
  /\ ActiveLoan.vehicleModel new = ActiveLoan.vehicleModel old
  /\ ActiveLoan.imageUrl new = ActiveLoan.imageUrl old
  /\ ActiveLoan.monthlyPayment new = ActiveLoan.monthlyPayment old
  /\ ActiveLoan.totalCost new = ActiveLoan.totalCost old
  /\ ActiveLoan.loanStartDate new = ActiveLoan.loanStartDate old
  /\ ActiveLoan.loanTermInMonths new = ActiveLoan.loanTermInMonths old
  /\ ActiveLoan.paymentDayOfMonth new = ActiveLoan.paymentDayOfMonth old
  /\ ActiveLoan.color new = ActiveLoan.color old
  /\ ActiveLoan.planType new = ActiveLoan.planType old
  /\ ActiveLoan.lastPaymentMonth new = ActiveLoan.lastPaymentMonth old
  /\ ActiveLoan.initialLoanAmount new = ActiveLoan.initialLoanAmount old.

(** Every field but [lastPaymentMonth] agrees. *)
Definition same_but_lastPaymentMonth (old new : ActiveLoan.t) : Prop :=
  ActiveLoan.id new = ActiveLoan.id old
  /\ ActiveLoan.vehicleModel new = ActiveLoan.vehicleModel old
  /\ ActiveLoan.imageUrl new = ActiveLoan.imageUrl old
  /\ ActiveLoan.monthlyPayment new = ActiveLoan.monthlyPayment old
  /\ ActiveLoan.totalCost new = ActiveLoan.totalCost old
  /\ ActiveLoan.loanStartDate new = ActiveLoan.loanStartDate old
  /\ ActiveLoan.loanTermInMonths new = ActiveLoan.loanTermInMonths old
  /\ ActiveLoan.paymentDayOfMonth new = ActiveLoan.paymentDayOfMonth old
  /\ ActiveLoan.color new = ActiveLoan.color old
  /\ ActiveLoan.amountLeft new = ActiveLoan.amountLeft old
  /\ ActiveLoan.planType new = ActiveLoan.planType old
  /\ ActiveLoan.initialLoanAmount new = ActiveLoan.initialLoanAmount old.






(** The due date of instalment [i]: what the scheduler hands to the
    [Date] constructor. *)
Definition dueDate (loan : ActiveLoan.t) (i : Z) : JSDate.Date :=
  JSDate.newDate (JSDate.getFullYear (ActiveLoan.loanStartDate loan))
                 (JSDate.getMonth (ActiveLoan.loanStartDate loan) + i)%Z
                 (ActiveLoan.paymentDayOfMonth loan).

Definition eventOf (loan : ActiveLoan.t) (i : Z)
    : MyTimelinePage.Payment.t :=
  MyTimelinePage.Payment.mk (dueDate loan i) loan
                            (ActiveLoan.loanTermInMonths loan - i)%Z.

(** The schedule in the words of the specification: per loan, the events
    of the month indices [0 .. term - 1] that are due at or after [from];
    then all loans together. *)
Definition scheduleOf (from : JSDate.Date) (loan : ActiveLoan.t)
    : list MyTimelinePage.Payment.t :=
  filter (fun e => MyTimelinePage.Payment.date e >=? from)%Z
         (map (fun k => eventOf loan (Z.of_nat k))
              (seq 0 (Z.to_nat (ActiveLoan.loanTermInMonths loan)))).

Definition specSchedule (from : JSDate.Date) (loans : list ActiveLoan.t)
    : list MyTimelinePage.Payment.t :=
  flat_map (scheduleOf from) loans.

Definition byDate (a b : MyTimelinePage.Payment.t) : Prop :=
  (MyTimelinePage.Payment.date a <= MyTimelinePage.Payment.date b)%Z.

(** An integer as a rational. *)
Definition zQc (z : Z) : Qc := Q2Qc (inject_Z z).

(** A currency field that is a number and not below zero. *)
Definition nonNegative (x : number) : Prop := (of_Z 0 <=? x)%num = true.

(** The loop of the scheduler over an arbitrary calendar: the reasoning on
    the loop does not depend on how dates are computed. *)
Section GenericCalendar.
Variable mkDate : Z -> Z -> Z -> JSDate.Date.
Variables year month : JSDate.Date -> Z.

Fixpoint genericLoop
    (today : JSDate.Date) (vehicle : ActiveLoan.t)
    (loanStartDate : JSDate.Date) (n : nat) (i : Z)
    (payments : list MyTimelinePage.Payment.t)
    : list MyTimelinePage.Payment.t :=
  match n with
  | O => payments
  | S n' =>
      let paymentDate :=
        mkDate (year loanStartDate) (month loanStartDate + i)%Z
               (ActiveLoan.paymentDayOfMonth vehicle) in
      let payments' :=
        if (paymentDate >=? today)%Z then
          payments ++ [MyTimelinePage.Payment.mk paymentDate vehicle
                         (ActiveLoan.loanTermInMonths vehicle - i)%Z]
        else payments in
      genericLoop today vehicle loanStartDate n' (i + 1)%Z payments'
  end.

Definition genericEvent
    (vehicle : ActiveLoan.t) (start : JSDate.Date) (i : Z)
    : MyTimelinePage.Payment.t :=
  MyTimelinePage.Payment.mk
    (mkDate (year start) (month start + i)%Z
            (ActiveLoan.paymentDayOfMonth vehicle))
    vehicle (ActiveLoan.loanTermInMonths vehicle - i)%Z.
End GenericCalendar.

(** An amount in whole cents, rounded down. *)
Definition cents (x : Qc) : Z := Qfloor (x * zQc 100)%Qc.

(** [a] was not saved before [b], by the parsed time stamps. *)
Definition notOlder (Date_parse : string -> number)
    (a b : SavedAlignment.t) : Prop :=
  (Date_parse (SavedAlignment.savedAt a)
   <? Date_parse (SavedAlignment.savedAt b))%num = false.

(** The orders of the recommendation cards: no card that is not a top
    match precedes a top match, and among cards with the same flag the
    cheaper one comes first. *)
Definition topFirst (a b : VehicleRecommendation.t) : Prop :=
  VehicleRecommendation.isTopMatch a = true
  \/ VehicleRecommendation.isTopMatch b = false.

Definition cheaperFirst (a b : VehicleRecommendation.t) : Prop :=
  VehicleRecommendation.isTopMatch a = VehicleRecommendation.isTopMatch b ->
  (VehicleRecommendation.price a <=? VehicleRecommendation.price b)%num
  = true.

(** The visibility that the settings effect hands down to an id. *)
Definition inheritedVisible
    (prevSettings : MyTimelinePage.TimelineSettings) (id : string) : bool :=
  match prevSettings id with
  | Some s => MyTimelinePage.Setting.visible s
  | None => true
  end.

(* ================================================================== *)
(** ** Concrete records used in the examples *)

Module Sample.
Definition camry : ToyotaVehicle.t :=
  ToyotaVehicle.mk "Camry" (of_Z 32000) "Midsize sedan" "camry.png"
                   "Sedan" "Commuting" 5 None.
Definition input : UserInput.t :=
  UserInput.mk (of_Z 75000) (of_Z 720) (of_Z 5000) 5 1 [] [] EmptyString.
(** 31 January 2024, local midnight. *)
Definition jan31 : JSDate.Date := JSDate.newDate 2024 0 31.
(** A one-year financing obligation with a balance of 100, started on
    31 January 2024. *)
Definition loan100 : ActiveLoan.t :=
  ActiveLoan.mk "1706659200000-Camry" "Camry" "camry.png" (of_Z 500)
                (of_Z 11000) jan31 12 31 "#9b59b6" (of_Z 100) PFinancing
                None (Some (of_Z 6000)).
Definition lease : ActiveLoan.t :=
  ActiveLoan.mk "1706659200001-Corolla" "Corolla" "corolla.png" (of_Z 300)
                (of_Z 10800) jan31 36 31 "#3498db" (of_Z 0) PLeasing
                None None.
Definition data100 : UserData.t := UserData.mk input [] [] [loan100; lease].
(** The plan of scenario A to the cent (27000 over 5 years at 6.5%),
    saved on 31 January 2024. *)
Definition planA : FinancingPlan.t :=
  FinancingPlan.mk (lit 52829 100) (lit 3669740 100) (lit 65 1000)
                   (of_Z 27000) 5.
Definition alignmentA : SavedAlignment.t :=
  SavedAlignment.mk "1706659200000-Camry" camry input
                    (Financing planA) "2024-01-31T00:00:00.000Z".
Definition dataA : UserData.t := UserData.mk input [alignmentA] [] [].
Definition mar31 : JSDate.Date := JSDate.newDate 2024 2 31.
(** A down payment of 25000 against a price of 20000. *)
Definition inputOver : UserInput.t :=
  UserInput.mk (of_Z 75000) (of_Z 720) (of_Z 25000) 5 1 [] [] EmptyString.
End Sample.

(* ================================================================== *)
(** * Properties *)

(** ** Arithmetic of numbers *)

Section NumFacts.
Local Open Scope Qc_scope.

Lemma Qc_leb_le (x y : Qc) : Qc_leb x y = true <-> x <= y.
Proof. unfold Qc_leb, Qcle. apply Qle_bool_iff. Qed.

Lemma Qc_ltb_lt (x y : Qc) : Qc_ltb x y = true <-> x < y.
Proof.
  unfold Qc_ltb, Qclt. rewrite negb_true_iff, <- not_true_iff_false.
  rewrite Qle_bool_iff. split; [apply Qnot_le_lt | apply Qlt_not_le].
Qed.

Lemma Qc_eqb_eq (x y : Qc) : Qc_eqb x y = true <-> x = y.
Proof.
  unfold Qc_eqb. rewrite Qeq_bool_iff. split.
  - apply Qc_is_canon.
  - intros ->. reflexivity.
Qed.

Lemma Qc_leb_gt (x y : Qc) : Qc_leb x y = false <-> y < x.
Proof.
  rewrite <- not_true_iff_false, Qc_leb_le.
  split; [apply Qcnot_le_lt | apply Qclt_not_le].
Qed.

Lemma Qc_ltb_ge (x y : Qc) : Qc_ltb x y = false <-> y <= x.
Proof.
  rewrite <- not_true_iff_false, Qc_ltb_lt.
  split; [apply Qcnot_lt_le | apply Qcle_not_lt].
Qed.

Lemma Qc_eqb_neq (x y : Qc) : Qc_eqb x y = false <-> x <> y.
Proof. rewrite <- not_true_iff_false, Qc_eqb_eq. tauto. Qed.

Lemma of_Z_0 : of_Z 0 = Fin 0.
Proof. reflexivity. Qed.

Lemma Math_max_0_Fin (x : Qc) :
  Math_max (of_Z 0) (Fin x) = if Qc_leb 0 x then Fin x else Fin 0.
Proof. rewrite of_Z_0. reflexivity. Qed.

Lemma Math_max_0_nonneg (v : number) :
  v <> NaN -> leb (of_Z 0) (Math_max (of_Z 0) v) = true.
Proof.
  rewrite of_Z_0. intros Hv.
  destruct v as [x | | |]; [ | reflexivity | reflexivity | contradiction ].
  unfold Math_max, leb. destruct (Qc_leb 0 x) eqn:E; [exact E |].
  apply Qc_leb_le, Qcle_refl.
Qed.

End NumFacts.

(** Turns a goal on canonical rationals into one on [Q], where the linear
    and non-linear arithmetic procedures apply. *)
Ltac qc2q :=
  unfold Qcdiv, Qcminus in *;
  unfold Qcle, Qclt, Qcplus, Qcopp, Qcmult, Qcinv, Q2Qc in *;
  cbn [this] in *;
  repeat (rewrite !Qred_correct in * ).

Ltac qc_bools :=
  repeat match goal with
  | H : Qc_leb _ _ = true |- _ => apply Qc_leb_le in H
  | H : Qc_leb _ _ = false |- _ => apply Qc_leb_gt in H
  | H : Qc_ltb _ _ = true |- _ => apply Qc_ltb_lt in H
  | H : Qc_ltb _ _ = false |- _ => apply Qc_ltb_ge in H
  | H : Qc_eqb _ _ = true |- _ => apply Qc_eqb_eq in H
  | H : Qc_eqb _ _ = false |- _ => apply Qc_eqb_neq in H
  end.

Lemma Qc_eq_Qeq (x y : Qc) : x = y <-> (this x == this y)%Q.
Proof. split; [now intros -> | apply Qc_is_canon]. Qed.

Ltac qc_arith :=
  qc_bools;
  repeat match goal with
  | H : @eq Qc _ _ |- _ => apply Qc_eq_Qeq in H
  | H : ~ @eq Qc _ _ |- _ => rewrite Qc_eq_Qeq in H
  | |- @eq Qc _ _ => apply Qc_eq_Qeq
  end;
  qc2q.

(** ** The payment ledger *)

Section Ledger.
Variable now : JSDate.Date.
Local Open Scope num_scope.

Lemma payLoan_other loanId amount loan :
  ActiveLoan.id loan <> loanId -> App.payLoan now loanId amount loan = loan.
Proof.
  intros H. unfold App.payLoan.
  apply String.eqb_neq in H. now rewrite H.
Qed.

Lemma payLoan_financing loanId amount loan :
  ActiveLoan.id loan = loanId ->
  ActiveLoan.planType loan = PFinancing ->
  App.payLoan now loanId amount loan
  = ActiveLoan.with_amountLeft loan
      (Math_max (of_Z 0) (ActiveLoan.amountLeft loan - amount)).
Proof.
  intros Hid Hp. unfold App.payLoan.
  apply String.eqb_eq in Hid. now rewrite Hid, Hp.
Qed.

Lemma payLoan_leasing loanId amount loan :
  ActiveLoan.id loan = loanId ->
  ActiveLoan.planType loan = PLeasing ->
  App.payLoan now loanId amount loan
  = ActiveLoan.with_lastPaymentMonth loan
      (JSDate.getFullYear now * 100 + JSDate.getMonth now)%Z.
Proof.
  intros Hid Hp. unfold App.payLoan.
  apply String.eqb_eq in Hid. now rewrite Hid, Hp.
Qed.

Lemma payLoan_planType loanId amount loan :
  ActiveLoan.planType (App.payLoan now loanId amount loan)
  = ActiveLoan.planType loan.
Proof.
  unfold App.payLoan. destruct (String.eqb _ _); [|reflexivity].
  destruct (ActiveLoan.planType loan) eqn:E; cbn; congruence.
Qed.

Lemma sub_finite_not_NaN (a : number) (y : Qc) :
  (of_Z 0 <=? a) = true -> a - Fin y <> NaN.
Proof. destruct a; cbn; intros; congruence. Qed.

Lemma payLoan_amountLeft_nonneg loanId amount loan :
  ActiveLoan.planType loan = PFinancing ->
  (of_Z 0 <=? ActiveLoan.amountLeft loan) = true ->
  is_finite amount ->
  (of_Z 0 <=? ActiveLoan.amountLeft (App.payLoan now loanId amount loan))
  = true.
Proof.
  intros Hp Hpos Hfin.
  destruct (string_dec (ActiveLoan.id loan) loanId) as [Hid | Hid].
  - rewrite payLoan_financing by assumption.
    cbn [ActiveLoan.amountLeft ActiveLoan.with_amountLeft].
    apply Math_max_0_nonneg.
    destruct amount as [y | | |]; try contradiction.
    now apply sub_finite_not_NaN.
  - now rewrite payLoan_other.
Qed.
End Ledger.

Section LedgerClaims.
Local Open Scope num_scope.

Lemma with_amountLeft_frame loan v :
  same_but_amountLeft loan (ActiveLoan.with_amountLeft loan v).
Proof. repeat split. Qed.

Lemma with_lastPaymentMonth_frame loan v :
  same_but_lastPaymentMonth loan (ActiveLoan.with_lastPaymentMonth loan v).
Proof. repeat split. Qed.

(** C1, as stated, fails on the code: [handleMakePayment], called with 150
    for a financing obligation whose balance is 100, rejects nothing; the
    balance becomes 0 instead of staying 100.  (The payment form would not
    pass this amount on: it is above the [max] of the amount field.) *)
Lemma ledger_applies_an_overpayment :
  let st := Some Sample.data100 in
  let st' :=
    App.handleMakePayment Sample.jan31 (ActiveLoan.id Sample.loan100)
                          (of_Z 150) st in
  ActiveLoan.planType Sample.loan100 = PFinancing
  /\ ActiveLoan.amountLeft Sample.loan100 = of_Z 100
  /\ (of_Z 150 >? ActiveLoan.amountLeft Sample.loan100) = true
  /\ st' <> st
  /\ option_map
       (fun ud => map ActiveLoan.amountLeft (UserData.activeLoans ud)) st'
     = Some [of_Z 0; of_Z 0]
  /\ PaymentModal.submitForm (App.handleMakePayment Sample.jan31)
       (Some Sample.loan100) (of_Z 150) st = st.
Proof.
  repeat split.
  intros H. apply (f_equal (option_map
    (fun ud => map ActiveLoan.amountLeft (UserData.activeLoans ud)))) in H.
  vm_compute in H. discriminate H.
Qed.

Lemma amountMin_positive (amount : number) :
  (PaymentModal.amountMin <=? amount) = true -> (amount <=? of_Z 0) = false.
Proof.
  unfold PaymentModal.amountMin, lit, of_Q. rewrite of_Z_0.
  destruct amount as [x | | |]; cbn [leb]; try discriminate; try reflexivity.
  intros H. apply Qc_leb_le in H. apply Qc_leb_gt.
  apply Qclt_le_trans with (Q2Qc (1 # 100)); [reflexivity | exact H].
Qed.

Lemma leb_false_of_gtb (a b : number) : (a >? b) = true -> (a <=? b) = false.
Proof.
  unfold gtb. destruct a as [x | | |], b as [y | | |]; cbn [ltb leb];
    try discriminate; try reflexivity.
  intros H. apply Qc_ltb_lt in H. now apply Qc_leb_gt.
Qed.

Lemma leb_false_of_ltb (a b : number) : (a <? b) = true -> (b <=? a) = false.
Proof. apply (leb_false_of_gtb b a). Qed.

(** C1 (amended): the ledger never rejects and no [InvalidPaymentAmount]
    exists.  For every financing obligation and every amount,
    [handleMakePayment] stores [max(0, amountLeft - amount)] and keeps every
    other field: with a finite balance [L], a finite amount [a <= L] leaves
    [amountLeft - amount] and an amount [a > L] is accepted and clamps the
    balance to 0.  Amounts are refused before the ledger, by the payment
    form, which then leaves the state as it is: the amount field keeps the
    form from being submitted with an amount below 0.01, above
    [floorToCent amountLeft] or that is not a number, and [handleSubmit]
    returns at once when the amount is [<= 0].  An amount that the field
    accepts is floored to the cent and handed to the ledger. *)
Theorem payment_is_clamped_not_rejected
    (now : JSDate.Date) (loan : ActiveLoan.t) (amount : number) :
  ActiveLoan.planType loan = PFinancing ->
  let loan' := App.payLoan now (ActiveLoan.id loan) amount loan in
  same_but_amountLeft loan loan'
  /\ ActiveLoan.amountLeft loan'
     = Math_max (of_Z 0) (ActiveLoan.amountLeft loan - amount)
  /\ (forall L a : Qc,
        ActiveLoan.amountLeft loan = Fin L -> amount = Fin a ->
        ((a <= L)%Qc ->
         ActiveLoan.amountLeft loan' = ActiveLoan.amountLeft loan - amount)
        /\ ((L < a)%Qc -> ActiveLoan.amountLeft loan' = of_Z 0))
  /\ (forall (S : Type) (submit : string -> number -> S -> S) (st : S),
        ((amount <=? of_Z 0) = true ->
         PaymentModal.handleSubmit submit (Some loan) amount st = st)
        /\ ((amount <? PaymentModal.amountMin) = true
            \/ (amount >? PaymentModal.amountMax loan) = true
            \/ amount = NaN ->
            PaymentModal.amountFieldValid loan amount = false)
        /\ (PaymentModal.amountFieldValid loan amount = false ->
            PaymentModal.submitForm submit (Some loan) amount st = st)
        /\ (PaymentModal.amountFieldValid loan amount = true ->
            PaymentModal.submitForm submit (Some loan) amount st
            = submit (ActiveLoan.id loan) (PaymentModal.floorToCent amount)
                     st)).
Proof.
  intros Hp loan'. subst loan'.
  rewrite payLoan_financing by auto.
  split; [apply with_amountLeft_frame |].
  cbn [ActiveLoan.amountLeft ActiveLoan.with_amountLeft].
  split; [reflexivity |]. split.
  - intros L a HL ->. rewrite HL. cbn [sub neg add].
    rewrite Math_max_0_Fin. split.
    + intros Hle. destruct (Qc_leb 0 (L + - a)) eqn:E; qc_bools;
        [reflexivity |].
      exfalso. qc2q. lra.
    + intros Hlt. destruct (Qc_leb 0 (L + - a)) eqn:E; qc_bools;
        [| reflexivity].
      exfalso. qc2q. lra.
  - intros S submit st. split; [| split; [| split]].
    + intros Hle. unfold PaymentModal.handleSubmit. now rewrite Hle.
    + unfold PaymentModal.amountFieldValid.
      intros [H | [H | H]].
      * now rewrite (leb_false_of_ltb _ _ H).
      * rewrite (leb_false_of_gtb _ _ H). now rewrite andb_false_r.
      * subst amount. reflexivity.
    + intros Hv. unfold PaymentModal.submitForm. now rewrite Hv.
    + intros Hv. unfold PaymentModal.submitForm. rewrite Hv.
      unfold PaymentModal.amountFieldValid in Hv.
      apply andb_true_iff in Hv. destruct Hv as [Hv _].
      apply andb_true_iff in Hv. destruct Hv as [Hmin _].
      unfold PaymentModal.handleSubmit.
      now rewrite (amountMin_positive _ Hmin).
Qed.

Lemma payment_is_clamped_not_rejected_witness :
  let loan' :=
    App.payLoan Sample.jan31 (ActiveLoan.id Sample.loan100) (of_Z 150)
                Sample.loan100 in
  ActiveLoan.amountLeft loan' = of_Z 0.
Proof.
  assert (Hlt : (Q2Qc 100 < Q2Qc 150)%Qc) by (apply Qc_ltb_lt; reflexivity).
  exact (proj2 (proj1 (proj2 (proj2
    (payment_is_clamped_not_rejected Sample.jan31 Sample.loan100
       (of_Z 150) eq_refl))) (Q2Qc 100) (Q2Qc 150) eq_refl eq_refl) Hlt).
Defined.

(** C9, as stated, fails on the code: the claim is for every amount
    whatsoever, and a payment of [NaN] on the obligation whose balance is
    100 stores [max(0, 100 - NaN) = NaN], which is not [>= 0]. *)
Lemma payment_of_NaN_poisons_the_balance :
  let next :=
    App.handleMakePayment Sample.jan31 (ActiveLoan.id Sample.loan100) NaN
                          (Some Sample.data100) in
  Forall (fun loan => ActiveLoan.planType loan = PFinancing ->
                      (of_Z 0 <=? ActiveLoan.amountLeft loan) = true)
         (UserData.activeLoans Sample.data100)
  /\ option_map
       (fun ud => map ActiveLoan.amountLeft (UserData.activeLoans ud)) next
     = Some [NaN; of_Z 0]
  /\ ~ (exists ud,
         next = Some ud
         /\ Forall (fun loan => ActiveLoan.planType loan = PFinancing ->
                                (of_Z 0 <=? ActiveLoan.amountLeft loan) = true)
                   (UserData.activeLoans ud)).
Proof.
  cbv zeta. split; [repeat constructor; discriminate |].
  split; [reflexivity |].
  intros [ud [Hud Hall]].
  vm_compute in Hud. injection Hud as <-.
  cbn [UserData.activeLoans] in Hall.
  apply Forall_inv in Hall. specialize (Hall eq_refl).
  vm_compute in Hall. discriminate Hall.
Qed.

(** C9 (amended): a payment of any finite amount, negative or above the
    balance included, keeps the balance of every financing obligation
    non-negative. *)
Theorem balance_stays_nonnegative
    (now : JSDate.Date) (loanId : string) (amount : number)
    (prev : UserData.t) :
  is_finite amount ->
  Forall (fun loan => ActiveLoan.planType loan = PFinancing ->
                      (of_Z 0 <=? ActiveLoan.amountLeft loan) = true)
         (UserData.activeLoans prev) ->
  exists next,
    App.handleMakePayment now loanId amount (Some prev) = Some next
    /\ Forall (fun loan => ActiveLoan.planType loan = PFinancing ->
                           (of_Z 0 <=? ActiveLoan.amountLeft loan) = true)
              (UserData.activeLoans next).
Proof.
  intros Hfin Hinv. eexists. split; [reflexivity |].
  cbn [UserData.activeLoans UserData.with_activeLoans].
  induction Hinv as [| loan loans Hloan _ IH]; cbn [map]; constructor; auto.
  rewrite payLoan_planType. intros Hp.
  apply payLoan_amountLeft_nonneg; auto.
Qed.

Lemma balance_stays_nonnegative_witness :
  exists next,
    App.handleMakePayment Sample.jan31 "1706659200000-Camry" (of_Z (-40))
                          (Some Sample.data100) = Some next
    /\ Forall (fun loan => ActiveLoan.planType loan = PFinancing ->
                           (of_Z 0 <=? ActiveLoan.amountLeft loan) = true)
              (UserData.activeLoans next).
Proof.
  apply balance_stays_nonnegative.
  - exact I.
  - repeat constructor; discriminate.
Defined.

(** C10: a payment changes nothing but [amountLeft] (financing) or
    [lastPaymentMonth] (leasing) of the obligations whose id is the one
    paid; every other obligation, the saved plans, the user input and the
    conversations come back as they were. *)
Theorem payment_frame
    (now : JSDate.Date) (loanId : string) (amount : number)
    (prev : UserData.t) :
  exists next,
    App.handleMakePayment now loanId amount (Some prev) = Some next
    /\ UserData.userInput next = UserData.userInput prev
    /\ UserData.savedAlignments next = UserData.savedAlignments prev
    /\ UserData.chatbotConversations next = UserData.chatbotConversations prev
    /\ Forall2
         (fun old new =>
            (ActiveLoan.id old <> loanId -> new = old)
            /\ (ActiveLoan.planType old = PFinancing ->
                same_but_amountLeft old new)
            /\ (ActiveLoan.planType old = PLeasing ->
                same_but_lastPaymentMonth old new))
         (UserData.activeLoans prev) (UserData.activeLoans next).
Proof.
  eexists. split; [reflexivity |].
  cbn [UserData.userInput UserData.savedAlignments
       UserData.chatbotConversations UserData.activeLoans
       UserData.with_activeLoans].
  repeat split.
  induction (UserData.activeLoans prev) as [| loan loans IH]; cbn [map];
    constructor; auto.
  split; [apply payLoan_other |].
  destruct (string_dec (ActiveLoan.id loan) loanId) as [Hid | Hid].
  - split; intros Hp.
    + rewrite payLoan_financing by auto. apply with_amountLeft_frame.
    + rewrite payLoan_leasing by auto. apply with_lastPaymentMonth_frame.
  - rewrite payLoan_other by auto. split; intros _; repeat split.
Qed.

(** C7: a payment on a lease made at [now] stores the marker
    [year * 100 + month] of [now], and the evaluator, asked at the same
    [now], finds the lease on track; the amount plays no part. *)
Theorem lease_payment_then_on_track
    (now : JSDate.Date) (amount : number) (loan : ActiveLoan.t)
    (prev : UserData.t) :
  ActiveLoan.planType loan = PLeasing ->
  In loan (UserData.activeLoans prev) ->
  let loan' := App.payLoan now (ActiveLoan.id loan) amount loan in
  ActiveLoan.lastPaymentMonth loan'
  = Some (JSDate.getFullYear now * 100 + JSDate.getMonth now)%Z
  /\ MyTimelinePage.getOnTrackStatus now loan' = true
  /\ exists next,
       App.handleMakePayment now (ActiveLoan.id loan) amount (Some prev)
       = Some next
       /\ In loan' (UserData.activeLoans next).
Proof.
  intros Hp Hin loan'. subst loan'.
  rewrite payLoan_leasing by auto.
  split; [reflexivity |]. split.
  - unfold MyTimelinePage.getOnTrackStatus.
    cbn [ActiveLoan.planType ActiveLoan.with_lastPaymentMonth
         ActiveLoan.lastPaymentMonth].
    now rewrite Hp, Z.eqb_refl.
  - eexists. split; [reflexivity |].
    cbn [UserData.activeLoans UserData.with_activeLoans].
    rewrite <- (payLoan_leasing now (ActiveLoan.id loan) amount) by auto.
    now apply in_map.
Qed.

Lemma lease_payment_then_on_track_witness :
  MyTimelinePage.getOnTrackStatus (JSDate.newDate 2024 2 15)
    (App.payLoan (JSDate.newDate 2024 2 15) (ActiveLoan.id Sample.lease)
                 (of_Z 300) Sample.lease)
  = true.
Proof.
  refine (proj1 (proj2
    (lease_payment_then_on_track (JSDate.newDate 2024 2 15) (of_Z 300)
       Sample.lease Sample.data100 eq_refl _))).
  right. left. reflexivity.
Defined.

End LedgerClaims.

(** ** The commit engine and the on-track evaluator *)

Section Commit.
Lemma newLoan_id now count a :
  ActiveLoan.id (App.newLoan now count a) = SavedAlignment.id a.
Proof. unfold App.newLoan. now destruct (SavedAlignment.plan a). Qed.

Lemma loanExists_after_commit now count a ud :
  App.loanExists a
    (UserData.with_activeLoans ud
       (UserData.activeLoans ud ++ [App.newLoan now count a])) = true.
Proof.
  unfold App.loanExists.
  cbn [UserData.activeLoans UserData.with_activeLoans].
  rewrite existsb_app. cbn [existsb].
  rewrite newLoan_id, String.eqb_refl. now rewrite orb_true_r.
Qed.

Lemma commit_not_found now alignmentId ud :
  App.findAlignment alignmentId ud = None ->
  App.handleCommitAlignment now alignmentId (Some ud)
  = (Some ud, [App.plan_not_found]).
Proof.
  unfold App.handleCommitAlignment. now intros ->.
Qed.

Lemma commit_existing now alignmentId ud a :
  App.findAlignment alignmentId ud = Some a ->
  App.loanExists a ud = true ->
  App.handleCommitAlignment now alignmentId (Some ud)
  = (Some ud, [App.already_committed]).
Proof.
  unfold App.handleCommitAlignment.
  now intros -> ->.
Qed.

Lemma commit_fresh now alignmentId ud a :
  App.findAlignment alignmentId ud = Some a ->
  App.loanExists a ud = false ->
  App.handleCommitAlignment now alignmentId (Some ud)
  = (Some (UserData.with_activeLoans ud
             (UserData.activeLoans ud
              ++ [App.newLoan now (List.length (UserData.activeLoans ud)) a])),
     []).
Proof.
  unfold App.handleCommitAlignment.
  now intros -> ->.
Qed.

Lemma handleCommitAlignment_twice now1 now2 alignmentId prev :
  let once := App.handleCommitAlignment now1 alignmentId prev in
  let twice := App.handleCommitAlignment now2 alignmentId (fst once) in
  fst twice = fst once
  /\ (forall ud a,
        prev = Some ud ->
        App.findAlignment alignmentId ud = Some a ->
        snd twice = [App.already_committed]).
Proof.
  destruct prev as [ud |]; cbn zeta; [| split; [reflexivity | discriminate]].
  destruct (App.findAlignment alignmentId ud) as [a |] eqn:Hfind.
  - destruct (App.loanExists a ud) eqn:Hex.
    + rewrite (commit_existing now1 _ _ _ Hfind Hex). cbn [fst].
      rewrite (commit_existing now2 _ _ _ Hfind Hex).
      split; reflexivity.
    + rewrite (commit_fresh now1 _ _ _ Hfind Hex). cbn [fst].
      erewrite commit_existing.
      * split; reflexivity.
      * exact Hfind.
      * apply loanExists_after_commit.
  - rewrite (commit_not_found now1 _ _ Hfind). cbn [fst].
    rewrite (commit_not_found now2 _ _ Hfind).
    split; [reflexivity |].
    intros ud' a Hud. injection Hud as <-. congruence.
Qed.
End Commit.

(** C3: committing twice leaves the user data as one commit left it,
    whatever the two commit times; when the plan is among the saved plans
    the second commit warns that the plan is already committed, and so does
    a first commit of a plan whose id is already among the obligations,
    which returns the state untouched. *)
Theorem commit_is_idempotent
    (now1 now2 : JSDate.Date) (alignmentId : string)
    (prev : option UserData.t) :
  let once := App.handleCommitAlignment now1 alignmentId prev in
  let twice := App.handleCommitAlignment now2 alignmentId (fst once) in
  fst twice = fst once
  /\ (forall ud a,
        prev = Some ud ->
        App.findAlignment alignmentId ud = Some a ->
        snd twice = [App.already_committed])
  /\ (forall ud a,
        prev = Some ud ->
        App.findAlignment alignmentId ud = Some a ->
        App.loanExists a ud = true ->
        once = (prev, [App.already_committed])).
Proof.
  intros once twice.
  destruct (handleCommitAlignment_twice now1 now2 alignmentId prev)
    as [Hstate Hwarn].
  split; [exact Hstate |]. split; [exact Hwarn |].
  intros ud a -> Hfind Hex. subst once.
  now apply commit_existing with (a := a).
Qed.

Section OnTrack.
Local Open Scope Qc_scope.


End OnTrack.

Section OnTrackClaims.
Local Open Scope Qc_scope.



End OnTrackClaims.



Lemma commit_is_idempotent_witness :
  snd (App.handleCommitAlignment Sample.mar31 "1706659200000-Camry"
         (fst (App.handleCommitAlignment Sample.jan31 "1706659200000-Camry"
                 (Some Sample.dataA))))
  = [App.already_committed].
Proof.
  exact (proj1 (proj2
    (commit_is_idempotent Sample.jan31 Sample.mar31 "1706659200000-Camry"
       (Some Sample.dataA)))
    Sample.dataA Sample.alignmentA eq_refl eq_refl).
Defined.


(** ** Calendar arithmetic *)

Local Open Scope Z_scope.

Ltac zdiv := Z.div_mod_to_equations; lia.

Section Calendar.
Import JSDate.

Lemma leapDays_cases y : leapDays y = 0 \/ leapDays y = 1.
Proof.
  unfold leapDays, DaysInYear.
  repeat (destruct (negb _)); lia.
Qed.

Lemma DayFromYear_succ y : DayFromYear (y + 1) = DayFromYear y + DaysInYear y.
Proof.
  unfold DayFromYear, DaysInYear.
  destruct (Z.eqb_spec (y mod 4) 0); cbn [negb]; [| zdiv].
  destruct (Z.eqb_spec (y mod 100) 0); cbn [negb]; [| zdiv].
  destruct (Z.eqb_spec (y mod 400) 0); cbn [negb]; zdiv.
Qed.

Lemma yearFromDay_spec d :
  DayFromYear (yearFromDay d) <= d < DayFromYear (yearFromDay d + 1).
Proof.
  unfold yearFromDay.
  destruct (Z.ltb_spec d (DayFromYear (1970 + 400 * d / 146097))) as [H | H].
  - replace (1970 + 400 * d / 146097 - 1 + 1)
      with (1970 + 400 * d / 146097) by lia.
    split; [| exact H]. unfold DayFromYear in *. zdiv.
  - destruct (Z.leb_spec (DayFromYear (1970 + 400 * d / 146097 + 1)) d)
      as [H' | H'].
    + split; [exact H' |]. unfold DayFromYear in *. zdiv.
    + split; assumption.
Qed.

Lemma DayFromYear_mono y y' : y <= y' -> DayFromYear y <= DayFromYear y'.
Proof. unfold DayFromYear. zdiv. Qed.

Lemma DaysInYear_bounds y : 365 <= DaysInYear y <= 366.
Proof. unfold DaysInYear. repeat (destruct (negb _)); lia. Qed.

(** [yearFromDay d] is the only year whose days contain [d]. *)
Lemma yearFromDay_unique d y :
  DayFromYear y <= d < DayFromYear (y + 1) -> yearFromDay d = y.
Proof.
  intros Hy. pose proof (yearFromDay_spec d) as Hs.
  destruct (Z.lt_trichotomy (yearFromDay d) y) as [Hlt | [Heq | Hgt]];
    [exfalso | exact Heq | exfalso].
  - pose proof (DayFromYear_mono (yearFromDay d + 1) y). lia.
  - pose proof (DayFromYear_mono (y + 1) (yearFromDay d)). lia.
Qed.

Lemma Day_MakeDate day : Day (MakeDate day (MakeTime 0 0 0 0)) = day.
Proof.
  unfold Day, MakeDate, MakeTime, msPerDay. cbn. rewrite Z.add_0_r.
  now apply Z.div_mul.
Qed.

Lemma daysBeforeMonth_succ y mn :
  0 <= mn <= 10 ->
  daysBeforeMonth (mn + 1) (leapDays y)
  = daysBeforeMonth mn (leapDays y) + DaysInMonth y mn.
Proof.
  intros H.
  assert (mn = 0 \/ mn = 1 \/ mn = 2 \/ mn = 3 \/ mn = 4 \/ mn = 5 \/ mn = 6
          \/ mn = 7 \/ mn = 8 \/ mn = 9 \/ mn = 10) as Hc by lia.
  unfold DaysInMonth. generalize (leapDays y). intros l.
  repeat (destruct Hc as [-> | Hc]); try subst mn;
    match goal with
    | |- context [daysBeforeMonth (?a + 1)] =>
        let v := eval compute in (a + 1) in change (a + 1) with v
    end;
    cbv [daysBeforeMonth DaysInMonth]; lia.
Qed.

Lemma daysBeforeMonth_december y :
  daysBeforeMonth 11 (leapDays y) + DaysInMonth y 11 = DaysInYear y.
Proof. unfold leapDays. cbv [daysBeforeMonth DaysInMonth]. lia. Qed.

Lemma DaysInMonth_bounds y mn : 28 <= DaysInMonth y mn <= 31.
Proof.
  pose proof (leapDays_cases y).
  unfold DaysInMonth.
  destruct mn as [| p | p]; try lia.
  do 4 (destruct p; try lia).
Qed.

(** Reading back the fields of a date built from a valid
    year, month and day. *)
Lemma fields_of_MakeDay y mn d :
  0 <= mn <= 11 -> 1 <= d <= DaysInMonth y mn ->
  let t := MakeDate (MakeDay y mn d) (MakeTime 0 0 0 0) in
  YearFromTime t = y /\ MonthFromTime t = mn /\ DateFromTime t = d.
Proof.
  intros Hmn Hd t.
  assert (Hday : Day t
                 = DayFromYear y + daysBeforeMonth mn (leapDays y) + d - 1).
  { subst t. rewrite Day_MakeDate. unfold MakeDay.
    rewrite Z.div_small, Z.mod_small, Z.add_0_r by lia. reflexivity. }
  pose proof (leapDays_cases y) as Hl.
  assert (Hy : YearFromTime t = y).
  { unfold YearFromTime. apply yearFromDay_unique. rewrite Hday.
    rewrite DayFromYear_succ.
    assert (HY : DaysInYear y = 365 + leapDays y) by (unfold leapDays; lia).
    rewrite HY. unfold DaysInMonth in Hd.
    revert Hl Hd. generalize (leapDays y). intros l Hl Hd.
    assert (mn = 0 \/ mn = 1 \/ mn = 2 \/ mn = 3 \/ mn = 4 \/ mn = 5
            \/ mn = 6 \/ mn = 7 \/ mn = 8 \/ mn = 9 \/ mn = 10 \/ mn = 11)
      as Hc by lia.
    repeat (destruct Hc as [-> | Hc]); try subst mn;
      cbv [daysBeforeMonth] in Hd |- *; lia. }
  split; [exact Hy |].
  assert (Hleap : InLeapYear t = leapDays y).
  { unfold InLeapYear. rewrite Hy. unfold leapDays.
    pose proof (DaysInYear_bounds y).
    destruct (Z.eqb_spec (DaysInYear y) 366); lia. }
  assert (Hdwy : DayWithinYear t = daysBeforeMonth mn (leapDays y) + d - 1).
  { unfold DayWithinYear. rewrite Hy, Hday. lia. }
  clear Hday Hy. clearbody t. unfold DaysInMonth in Hd.
  revert Hl Hd Hleap Hdwy. generalize (leapDays y). intros l Hl Hd Hleap Hdwy.
  assert (Hm : MonthFromTime t = mn).
  { unfold MonthFromTime. rewrite Hdwy, Hleap.
    assert (mn = 0 \/ mn = 1 \/ mn = 2 \/ mn = 3 \/ mn = 4 \/ mn = 5
            \/ mn = 6 \/ mn = 7 \/ mn = 8 \/ mn = 9 \/ mn = 10 \/ mn = 11)
      as Hc by lia.
    repeat (destruct Hc as [-> | Hc]); try subst mn;
      cbv [daysBeforeMonth] in Hd, Hdwy |- *;
      repeat (match goal with
              | |- context [?a <? ?b] => destruct (Z.ltb_spec a b); try lia
              end). }
  split; [exact Hm |].
  unfold DateFromTime. rewrite Hm, Hdwy, Hleap. clear Hm Hdwy Hleap.
  assert (mn = 0 \/ mn = 1 \/ mn = 2 \/ mn = 3 \/ mn = 4 \/ mn = 5
          \/ mn = 6 \/ mn = 7 \/ mn = 8 \/ mn = 9 \/ mn = 10 \/ mn = 11)
    as Hc by lia.
  repeat (destruct Hc as [-> | Hc]); try subst mn;
    cbv [daysBeforeMonth]; lia.
Qed.

Lemma MonthFromTime_range t : 0 <= MonthFromTime t <= 11.
Proof.
  unfold MonthFromTime.
  repeat match goal with
         | |- context [if ?c then _ else _] => destruct c; try lia
         end.
Qed.

Lemma MakeDay_carry y m d :
  MakeDay y m d = MakeDay (y + m / 12) (m mod 12) d.
Proof.
  unfold MakeDay.
  rewrite Z.mod_mod by lia.
  replace (m mod 12 / 12) with 0
    by (symmetry; apply Z.div_small, Z.mod_pos_bound; lia).
  now rewrite Z.add_0_r.
Qed.

(** A day past the end of a month is a day of the month after. *)
Lemma MakeDay_overflow y mn d :
  0 <= mn <= 11 ->
  MakeDay y mn d
  = MakeDay (y + (mn + 1) / 12) ((mn + 1) mod 12) (d - DaysInMonth y mn).
Proof.
  intros Hmn. unfold MakeDay at 1.
  rewrite Z.div_small, Z.mod_small, Z.add_0_r by lia.
  destruct (Z.eq_dec mn 11) as [-> | Hne].
  - change ((11 + 1) / 12) with 1. change ((11 + 1) mod 12) with 0.
    unfold MakeDay. change (0 / 12) with 0. change (0 mod 12) with 0.
    replace (y + 1 + 0) with (y + 1) by lia.
    rewrite DayFromYear_succ.
    pose proof (daysBeforeMonth_december y).
    change (daysBeforeMonth 0 (leapDays (y + 1))) with 0. lia.
  - rewrite (Z.div_small (mn + 1)), (Z.mod_small (mn + 1)), Z.add_0_r by lia.
    unfold MakeDay.
    rewrite Z.div_small, Z.mod_small, Z.add_0_r by lia.
    rewrite daysBeforeMonth_succ by lia. lia.
Qed.

Lemma newDate_modern year month date :
  ~ (0 <= year <= 99) ->
  newDate year month date
  = MakeDate (MakeDay year month date) (MakeTime 0 0 0 0).
Proof.
  intros H. unfold newDate.
  destruct (Z.leb_spec 0 year), (Z.leb_spec year 99); cbn [andb];
    try reflexivity.
  lia.
Qed.

(** What [new Date(year, month, date)] denotes: inside the target month
    when the date fits, in the month after when it is too large. *)
Lemma newDate_fields year month date :
  ~ (0 <= year <= 99) ->
  let ty := year + month / 12 in
  let tm := month mod 12 in
  let D := DaysInMonth ty tm in
  let t := newDate year month date in
  (1 <= date <= D ->
     getFullYear t = ty /\ getMonth t = tm /\ getDate t = date)
  /\ (D < date <= 31 ->
        getFullYear t = ty + (tm + 1) / 12
        /\ getMonth t = (tm + 1) mod 12
        /\ getDate t = date - D).
Proof.
  intros Hyear ty tm D t.
  assert (Htm : 0 <= tm <= 11)
    by (subst tm; pose proof (Z.mod_pos_bound month 12); lia).
  assert (Ht : t = MakeDate (MakeDay ty tm date) (MakeTime 0 0 0 0)).
  { subst t. rewrite newDate_modern by exact Hyear.
    now rewrite MakeDay_carry. }
  split; intros Hd.
  - rewrite Ht. unfold getFullYear, getMonth, getDate.
    now apply fields_of_MakeDay.
  - rewrite Ht, MakeDay_overflow by exact Htm.
    unfold getFullYear, getMonth, getDate.
    apply fields_of_MakeDay.
    + pose proof (Z.mod_pos_bound (tm + 1) 12). lia.
    + fold D.
      pose proof (DaysInMonth_bounds ty tm).
      pose proof (DaysInMonth_bounds (ty + (tm + 1) / 12) ((tm + 1) mod 12)).
      fold D in H. lia.
Qed.
End Calendar.

Import MyTimelinePage.
Local Open Scope list_scope.

(** ** The payment scheduler *)

Section Sorting.
Context {A : Type} (key : A -> Z).

Lemma sort_insert_perm x l :
  Permutation (x :: l) (sort_insert (fun a b => key a - key b) x l).
Proof.
  induction l as [| y ys IH]; cbn [sort_insert]; [reflexivity |].
  destruct (key x - key y <=? 0); [reflexivity |].
  rewrite perm_swap. now apply perm_skip.
Qed.

Lemma Array_sort_perm l :
  Permutation l (Array_sort (fun a b => key a - key b) l).
Proof.
  induction l as [| x xs IH]; cbn; [constructor |].
  rewrite <- sort_insert_perm. now apply perm_skip.
Qed.

Lemma sort_insert_sorted x l :
  StronglySorted (fun a b => key a <= key b) l ->
  StronglySorted (fun a b => key a <= key b)
                 (sort_insert (fun a b => key a - key b) x l).
Proof.
  induction 1 as [| y ys Hs IH Hall]; cbn [sort_insert].
  - repeat constructor.
  - cbn beta. destruct (Z.leb_spec (key x - key y) 0) as [Hle | Hgt].
    + constructor; [now constructor |].
      constructor; [lia |].
      eapply Forall_impl; [| exact Hall]. cbn beta. intros; lia.
    + constructor; [exact IH |].
      eapply Permutation_Forall; [apply sort_insert_perm |].
      constructor; [lia | exact Hall].
Qed.

Lemma Array_sort_sorted l :
  StronglySorted (fun a b => key a <= key b)
                 (Array_sort (fun a b => key a - key b) l).
Proof.
  induction l as [| x xs IH]; cbn; [constructor |].
  now apply sort_insert_sorted.
Qed.
End Sorting.

Section GenericLoop.
Variable mkDate : Z -> Z -> Z -> JSDate.Date.
Variables year month : JSDate.Date -> Z.
Variables (today : JSDate.Date) (vehicle : ActiveLoan.t)
          (start : JSDate.Date).

Lemma genericLoop_spec n :
  forall i payments,
    genericLoop mkDate year month today vehicle start n i payments
    = payments
      ++ filter (fun e => Payment.date e >=? today)
           (map (fun k => genericEvent mkDate year month vehicle start
                            (i + Z.of_nat k))
                (seq 0 n)).
Proof.
  induction n as [| n IH]; intros i payments; cbn [genericLoop].
  - cbn. now rewrite app_nil_r.
  - rewrite IH. cbn [seq map filter].
    rewrite <- seq_shift, map_map.
    replace (i + Z.of_nat 0) with i by lia.
    assert (Hshift :
      map (fun k => genericEvent mkDate year month vehicle start
                      (i + 1 + Z.of_nat k)) (seq 0 n)
      = map (fun k => genericEvent mkDate year month vehicle start
                        (i + Z.of_nat (S k))) (seq 0 n)).
    { apply map_ext. intros k. f_equal. lia. }
    rewrite Hshift. unfold genericEvent at 1 3. cbn [Payment.date].
    destruct (_ >=? today).
    + now rewrite <- app_assoc.
    + reflexivity.
Qed.
End GenericLoop.

Lemma paymentLoop_generic :
  paymentLoop = genericLoop JSDate.newDate JSDate.getFullYear JSDate.getMonth.
Proof. reflexivity. Qed.

Section Scheduler.
Variable today : JSDate.Date.

Lemma paymentLoop_spec vehicle n i payments :
  paymentLoop today vehicle (ActiveLoan.loanStartDate vehicle) n i payments
  = payments
    ++ filter (fun e => Payment.date e >=? today)
         (map (fun k => eventOf vehicle (i + Z.of_nat k)) (seq 0 n)).
Proof.
  rewrite paymentLoop_generic.
  exact (genericLoop_spec JSDate.newDate JSDate.getFullYear JSDate.getMonth
           today vehicle (ActiveLoan.loanStartDate vehicle) n i payments).
Qed.

Lemma forEach_spec userVehicles :
  forall payments,
    fold_left
      (fun payments vehicle =>
         paymentLoop today vehicle (ActiveLoan.loanStartDate vehicle)
           (Z.to_nat (ActiveLoan.loanTermInMonths vehicle)) 0 payments)
      userVehicles payments
    = payments ++ specSchedule today userVehicles.
Proof.
  induction userVehicles as [| v vs IH]; intros payments; cbn [fold_left].
  - cbn. now rewrite app_nil_r.
  - rewrite IH, paymentLoop_spec. cbn [specSchedule flat_map].
    rewrite <- app_assoc. reflexivity.
Qed.

Lemma date_eventOf loan i : Payment.date (eventOf loan i) = dueDate loan i.
Proof. reflexivity. Qed.

Lemma In_scheduleOf e loan :
  In e (scheduleOf today loan)
  <-> exists i, 0 <= i < ActiveLoan.loanTermInMonths loan
                /\ e = eventOf loan i /\ today <= dueDate loan i.
Proof.
  unfold scheduleOf. rewrite filter_In, in_map_iff.
  split.
  - intros [[k [Hk1 Hk]] Hdue]. apply in_seq in Hk.
    exists (Z.of_nat k). rewrite <- Hk1, date_eventOf in Hdue.
    split; [lia |]. split; [now symmetry |].
    apply Z.geb_le in Hdue. exact Hdue.
  - intros [i [Hi [He Hdue]]]. split.
    + exists (Z.to_nat i). split; [| apply in_seq; lia].
      rewrite He. f_equal. apply Z2Nat.id. lia.
    + rewrite He, date_eventOf. apply Z.geb_le. exact Hdue.
Qed.
End Scheduler.

Section SchedulerFacts.
Variables (now : JSDate.Date) (userVehicles : list ActiveLoan.t).

Lemma allFuturePayments_perm :
  Permutation (allFuturePayments now userVehicles)
              (specSchedule (JSDate.setHours now 0 0 0 0) userVehicles).
Proof.
  unfold allFuturePayments. rewrite forEach_spec. cbn [app].
  symmetry. apply (Array_sort_perm Payment.date).
Qed.

Lemma allFuturePayments_sorted :
  StronglySorted byDate (allFuturePayments now userVehicles).
Proof.
  unfold allFuturePayments. apply (Array_sort_sorted Payment.date).
Qed.

Lemma In_allFuturePayments e :
  In e (allFuturePayments now userVehicles)
  <-> exists loan i,
        In loan userVehicles
        /\ 0 <= i < ActiveLoan.loanTermInMonths loan
        /\ JSDate.setHours now 0 0 0 0 <= dueDate loan i
        /\ e = Payment.mk (dueDate loan i) loan
                          (ActiveLoan.loanTermInMonths loan - i).
Proof.
  rewrite (Permutation_in' (eq_refl e) allFuturePayments_perm).
  unfold specSchedule. rewrite in_flat_map. split.
  - intros [loan [Hin He]]. apply In_scheduleOf in He.
    destruct He as [i [Hi [-> Hdue]]]. exists loan, i. auto.
  - intros [loan [i [Hin [Hi [Hdue ->]]]]]. exists loan.
    split; [exact Hin |]. apply In_scheduleOf. exists i. auto.
Qed.
End SchedulerFacts.

(** C5: the schedule holds, for each loan, exactly the events of the
    month indices [0 .. term - 1] whose due date
    [new Date(start.year, start.month + i, paymentDayOfMonth)] is not
    before [from] (local midnight of today), each with
    [remaining = term - i]; and it is sorted by ascending due date. *)
Theorem allFuturePayments_spec
    (now : JSDate.Date) (userVehicles : list ActiveLoan.t) :
  let from := JSDate.setHours now 0 0 0 0 in
  let schedule := allFuturePayments now userVehicles in
  Permutation schedule (specSchedule from userVehicles)
  /\ StronglySorted byDate schedule
  /\ forall e,
       In e schedule
       <-> exists loan i,
             In loan userVehicles
             /\ 0 <= i < ActiveLoan.loanTermInMonths loan
             /\ from <= dueDate loan i
             /\ e = Payment.mk (dueDate loan i) loan
                               (ActiveLoan.loanTermInMonths loan - i).
Proof.
  intros from schedule. split; [apply allFuturePayments_perm |].
  split; [apply allFuturePayments_sorted |].
  intros e. apply In_allFuturePayments.
Qed.

(** C4, as stated, fails on the code: for a loan started on 31 January
    2024 with payment day 31, the instalment of February (29 days) is due
    on 2 March, not on 29 February; March then has two due dates and
    February none. *)
Lemma february_due_date_is_not_clamped :
  let schedule := allFuturePayments Sample.jan31 [Sample.loan100] in
  ActiveLoan.loanStartDate Sample.loan100 = JSDate.newDate 2024 0 31
  /\ ActiveLoan.paymentDayOfMonth Sample.loan100 = 31
  /\ JSDate.DaysInMonth 2024 1 = 29
  /\ map (fun e => (Payment.remaining e,
                    JSDate.getFullYear (Payment.date e),
                    JSDate.getMonth (Payment.date e),
                    JSDate.getDate (Payment.date e)))
         (firstn 3 schedule)
     = [(12, 2024, 0, 31); (11, 2024, 2, 2); (10, 2024, 2, 31)]
  /\ existsb (fun e => Payment.date e =? JSDate.newDate 2024 1 29) schedule
     = false.
Proof. vm_compute. repeat split. Qed.

(** C4 (amended): every due date of the schedule is
    [new Date(start.year, start.month + i, paymentDayOfMonth)], with no
    clamping.  When the payment day fits the target month the date is that
    day of that month; when it exceeds the [D] days of the target month the
    date rolls forward into the following month, to its day
    [paymentDayOfMonth - D]. *)
Theorem due_date_rolls_forward
    (now : JSDate.Date) (userVehicles : list ActiveLoan.t) (e : Payment.t) :
  In e (allFuturePayments now userVehicles) ->
  let loan := Payment.vehicle e in
  let start := ActiveLoan.loanStartDate loan in
  let i := ActiveLoan.loanTermInMonths loan - Payment.remaining e in
  let Y := JSDate.getFullYear start in
  let M := JSDate.getMonth start + i in
  let ty := Y + M / 12 in
  let tm := M mod 12 in
  let D := JSDate.DaysInMonth ty tm in
  let pd := ActiveLoan.paymentDayOfMonth loan in
  ~ (0 <= Y <= 99) ->
  Payment.date e = JSDate.newDate Y M pd
  /\ (1 <= pd <= D ->
        JSDate.getFullYear (Payment.date e) = ty
        /\ JSDate.getMonth (Payment.date e) = tm
        /\ JSDate.getDate (Payment.date e) = pd)
  /\ (D < pd <= 31 ->
        JSDate.getFullYear (Payment.date e) = ty + (tm + 1) / 12
        /\ JSDate.getMonth (Payment.date e) = (tm + 1) mod 12
        /\ JSDate.getDate (Payment.date e) = pd - D).
Proof.
  intros Hin. apply In_allFuturePayments in Hin.
  destruct Hin as [loan0 [i0 [_ [_ [_ ->]]]]].
  cbn [Payment.vehicle Payment.remaining Payment.date].
  replace (ActiveLoan.loanTermInMonths loan0
           - (ActiveLoan.loanTermInMonths loan0 - i0)) with i0 by lia.
  cbv zeta. intros HY.
  split; [reflexivity |].
  apply (newDate_fields _ _ _ HY).
Qed.

Lemma due_date_rolls_forward_witness :
  let e := Payment.mk (JSDate.newDate 2024 1 31) Sample.loan100 11 in
  JSDate.getMonth (Payment.date e) = 2 /\ JSDate.getDate (Payment.date e) = 2.
Proof.
  intros e.
  assert (Hin : In e (allFuturePayments Sample.jan31 [Sample.loan100])).
  { vm_compute. right. left. reflexivity. }
  assert (HY : ~ (0 <= 2024 <= 99)) by lia.
  pose proof (proj2 (proj2
    (due_date_rolls_forward Sample.jan31 [Sample.loan100] e Hin HY))) as H.
  assert (Hd : JSDate.DaysInMonth 2024 1 < 31 <= 31)
    by (vm_compute; split; [reflexivity | discriminate]).
  exact (proj2 (H Hd)).
Defined.

(** ** The plan factory and the amortization calculator *)

Local Close Scope Z_scope.

Section PlanFacts.
Local Open Scope Qc_scope.

Lemma zQc_pos z : (0 < z)%Z -> 0 < zQc z.
Proof.
  intros H. unfold zQc. qc2q. change 0%Q with (inject_Z 0).
  rewrite <- Zlt_Qlt. exact H.
Qed.

Lemma Qcdiv_nonneg (x y : Qc) : 0 <= x -> 0 < y -> 0 <= x / y.
Proof.
  intros Hx Hy. qc_arith.
  apply Qle_shift_div_l; [exact Hy | lra].
Qed.

Lemma Qcpower_ge_1 (x : Qc) (n : nat) : 1 <= x -> 1 <= x ^ n.
Proof.
  intros Hx. induction n as [| n IH]; cbn [Qcpower].
  - apply Qcle_refl.
  - qc2q. nra.
Qed.

Lemma Qcpower_gt_1 (x : Qc) (n : nat) : 1 < x -> (0 < n)%nat -> 1 < x ^ n.
Proof.
  intros Hx Hn. destruct n as [| n]; [lia |]. cbn [Qcpower].
  pose proof (Qcpower_ge_1 x n (Qclt_le_weak _ _ Hx)) as H1.
  qc2q. nra.
Qed.

Lemma monthly_rate_of_zero : (of_Z 0 / of_Z 12)%num = Fin 0.
Proof. cbn. f_equal. all: now apply Qc_is_canon. Qed.

Lemma one_plus_zero : (of_Z 1 + Fin 0)%num = Fin 1.
Proof. cbn. f_equal. all: now apply Qc_is_canon. Qed.

Lemma Math_pow_one (n : Z) : Math_pow (Fin 1) n = Fin 1.
Proof.
  destruct n as [| p | p]; cbn [Math_pow]; rewrite ?Qcpower_1; reflexivity.
Qed.

Lemma of_Z_zQc z : of_Z z = Fin (zQc z).
Proof. reflexivity. Qed.

Lemma div_finite (x y : Qc) : y <> 0 -> (Fin x / Fin y)%num = Fin (x / y).
Proof.
  intros Hy. cbn [div]. apply Qc_eqb_neq in Hy. now rewrite Hy.
Qed.

(** The standalone calculator at rate zero. *)
Lemma calculateMonthlyPayment_zero_rate (P : Qc) (t : Z) :
  0 < P -> (1 <= t)%Z ->
  App.calculateMonthlyPayment (Fin P) (of_Z 0) t = Fin (P / zQc (t * 12)).
Proof.
  intros HP Ht. unfold App.calculateMonthlyPayment.
  rewrite monthly_rate_of_zero.
  assert (Hle : (Fin P <=? of_Z 0)%num = false)
    by (cbn; apply Qc_leb_gt; exact HP).
  rewrite Hle.
  assert (H0 : (Fin 0 =? of_Z 0)%num = true) by reflexivity.
  rewrite H0. rewrite of_Z_zQc. apply div_finite.
  intros H. pose proof (zQc_pos (t * 12) ltac:(lia)) as Hpos.
  rewrite H in Hpos. now apply Qclt_not_eq in Hpos.
Qed.

(** The annuity formula at rate zero is [0 / 0]. *)
Lemma annuity_zero_rate (P : Qc) (n : Z) :
  (Fin P * (Fin 0 * Math_pow (of_Z 1 + Fin 0) n)
   / (Math_pow (of_Z 1 + Fin 0) n - of_Z 1))%num = NaN.
Proof.
  rewrite one_plus_zero, Math_pow_one.
  assert (Hden : (Fin 1 - of_Z 1)%num = Fin 0)
    by (cbn; f_equal; try now apply Qc_is_canon).
  assert (Hnum : (Fin P * (Fin 0 * Fin 1))%num = Fin 0)
    by (cbn [mul]; f_equal; ring).
  rewrite Hden, Hnum. reflexivity.
Qed.
End PlanFacts.

Section PlanSigns.
Local Open Scope Qc_scope.

Lemma nonNegative_Fin (x : Qc) : nonNegative (Fin x) <-> 0 <= x.
Proof. unfold nonNegative. rewrite of_Z_0. cbn [leb]. apply Qc_leb_le. Qed.

Lemma zQc_1 : zQc 1 = 1.
Proof. now apply Qc_is_canon. Qed.

(** The annuity formula at a positive monthly rate [i], for a principal
    [P >= 0] and [n > 0] payments: a finite, non-negative amount. *)
Lemma annuity_nonneg (P i : Qc) (n : Z) :
  0 <= P -> 0 < i -> (0 < n)%Z ->
  exists M : Qc,
    (Fin P * (Fin i * Math_pow (of_Z 1 + Fin i) n)
     / (Math_pow (of_Z 1 + Fin i) n - of_Z 1))%num = Fin M
    /\ 0 <= M.
Proof.
  intros HP Hi Hn. destruct n as [| k | k]; try lia.
  cbn [Math_pow add mul sub neg]. rewrite !of_Z_zQc, zQc_1.
  cbn [add mul sub neg].
  set (q := (1 + i) ^ Pos.to_nat k).
  assert (Hq : 1 < q).
  { apply Qcpower_gt_1; [qc2q; lra | apply Pos2Nat.is_pos]. }
  assert (Hden : 0 < q - 1) by (qc2q; lra).
  unfold Qcminus in Hden.
  rewrite div_finite
    by (intros H; rewrite H in Hden; now apply Qclt_not_eq in Hden).
  eexists. split; [reflexivity |].
  apply Qcdiv_nonneg; [| exact Hden].
  clearbody q.
  assert (Hiq : 0 <= i * q) by (qc2q; nra).
  revert Hiq. generalize (i * q). intros iq Hiq.
  qc2q. nra.
Qed.

Lemma monthly_rate_pos (r : Qc) :
  0 < r -> exists i, (Fin r / of_Z 12)%num = Fin i /\ 0 < i.
Proof.
  intros Hr. exists (r / zQc 12). split; [reflexivity |].
  assert (H12 : 0 < zQc 12) by (apply zQc_pos; lia).
  unfold zQc in *. qc2q.
  apply Qlt_shift_div_l; [exact H12 | lra].
Qed.
End PlanSigns.

(** ** The rate model, and the card plans *)

Section RateModel.
Local Open Scope num_scope.

Lemma getInterestRate_cases (score : number) :
  In (App.getInterestRate score)
     [lit 5 100; lit 65 1000; lit 8 100; lit 12 100; lit 18 100].
Proof.
  unfold App.getInterestRate.
  repeat match goal with
         | |- context [if ?c then _ else _] => destruct c
         end; cbn; auto 10.
Qed.

Lemma getInterestRate_pos (score : number) :
  exists r : Qc, App.getInterestRate score = Fin r /\ (0 < r)%Qc.
Proof.
  pose proof (getInterestRate_cases score) as H. cbn [In] in H.
  destruct H as [H|[H|[H|[H|[H|[]]]]]]; rewrite <- H;
    eexists; (split; [reflexivity | reflexivity]).
Qed.

Lemma Qc_leb_trans_r (c x y : Qc) :
  Qc_leb c x = true -> Qc_leb x y = true -> Qc_leb c y = true.
Proof.
  intros H1 H2. apply Qc_leb_le in H1, H2. apply Qc_leb_le.
  now apply Qcle_trans with x.
Qed.

Lemma interestRate_pos (userData : option UserData.t) :
  exists r : Qc, App.interestRate userData = Fin r /\ (0 < r)%Qc.
Proof.
  destruct userData as [ud |].
  - unfold App.interestRate, App.affordability. cbn [snd].
    apply getInterestRate_pos.
  - eexists. split; reflexivity.
Qed.
End RateModel.

Section CardPlans.
Local Open Scope Qc_scope.

Lemma Qc_pos_neq (x : Qc) : 0 < x -> x <> 0.
Proof. intros H E. rewrite E in H. now apply Qclt_not_eq in H. Qed.

Lemma Qcdiv_pos (x y : Qc) : 0 < x -> 0 < y -> 0 < x / y.
Proof.
  intros Hx Hy. qc_arith.
  apply Qlt_shift_div_l; [exact Hy | lra].
Qed.

Lemma monthly_rate_nonzero (rate : number) :
  rate <> Fin 0 -> ((rate / of_Z 12) =? of_Z 0)%num = false.
Proof.
  intros H. destruct rate as [r| | |]; try reflexivity.
  rewrite of_Z_0.
  assert (H12 : zQc 12 <> 0).
  { intros E. apply Qc_eq_Qeq in E. discriminate E. }
  rewrite of_Z_zQc, div_finite by exact H12.
  cbn [eqb]. apply Qc_eqb_neq. intros E. apply H. f_equal.
  assert (Hr : r = r / zQc 12 * zQc 12) by (field; exact H12).
  rewrite Hr, E. ring.
Qed.

Lemma gtb_leb_Fin (x : Qc) :
  (Fin x >? of_Z 0)%num = negb (Fin x <=? of_Z 0)%num.
Proof.
  rewrite of_Z_0. unfold gtb. cbn [ltb leb]. unfold Qc_ltb, Qc_leb.
  reflexivity.
Qed.

(** The annuity factor [((1+i)^n - 1) / (i (1+i)^n)] is a number that is
    not negative; over at least one payment it is positive and undoes the
    amortization formula. *)
Lemma annuity_factor (i : Qc) (n : Z) :
  0 < i -> (0 <= n)%Z ->
  exists F : Qc,
    ((Math_pow (of_Z 1 + Fin i) n - of_Z 1)
     / (Fin i * Math_pow (of_Z 1 + Fin i) n))%num = Fin F
    /\ 0 <= F
    /\ ((0 < n)%Z ->
        0 < F
        /\ forall M : Qc,
             (Fin (M * F) * (Fin i * Math_pow (of_Z 1 + Fin i) n)
              / (Math_pow (of_Z 1 + Fin i) n - of_Z 1))%num = Fin M).
Proof.
  intros Hi Hn. pose proof (Qc_pos_neq i Hi) as Hi0.
  destruct n as [| k | k]; try lia.
  - cbn [Math_pow add mul sub neg]. rewrite !of_Z_zQc, zQc_1.
    cbn [add mul sub neg].
    rewrite div_finite by (intros E; apply Hi0; rewrite <- E; ring).
    eexists. split; [reflexivity |]. split; [| lia].
    rewrite Qcplus_opp_r. unfold Qcdiv. rewrite Qcmult_0_l.
    apply Qcle_refl.
  - cbn [Math_pow add mul sub neg]. rewrite !of_Z_zQc, zQc_1.
    cbn [add mul sub neg].
    set (q := (1 + i) ^ Pos.to_nat k).
    assert (Hq : 1 < q).
    { apply Qcpower_gt_1; [qc2q; lra | apply Pos2Nat.is_pos]. }
    clearbody q.
    assert (Hiq : 0 < i * q) by (qc2q; nra).
    assert (Hden : 0 < q - 1) by (qc2q; lra).
    unfold Qcminus in Hden.
    pose proof (Qc_pos_neq _ Hiq) as Hiq0.
    pose proof (Qc_pos_neq _ Hden) as Hden0.
    rewrite div_finite by exact Hiq0.
    eexists. split; [reflexivity |].
    pose proof (Qcdiv_pos _ _ Hden Hiq) as HF.
    split; [now apply Qclt_le_weak |]. intros _. split; [exact HF |].
    intros M. rewrite div_finite by exact Hden0. f_equal.
    assert (Hq0 : q <> 0) by (apply Qc_pos_neq; qc2q; lra).
    field. repeat split; assumption.
Qed.

(** Where the rate is not zero, the plan factory and the standalone
    calculator compute the same monthly payment. *)
Lemma plan_factory_agrees_with_calculator
    (price rate : number) (userInput : UserInput.t) (P : Qc) :
  (price - UserInput.downPayment userInput)%num = Fin P ->
  rate <> Fin 0 ->
  FinancingPlan.monthlyPayment
    (FinancingPage.financingPlan price userInput rate)
  = App.calculateMonthlyPayment (Fin P) rate (UserInput.loanTerm userInput).
Proof.
  intros HP Hr.
  unfold FinancingPage.financingPlan, App.calculateMonthlyPayment.
  cbn [FinancingPlan.monthlyPayment].
  rewrite HP, (monthly_rate_nonzero rate Hr), gtb_leb_Fin.
  destruct (Fin P <=? of_Z 0)%num; reflexivity.
Qed.

Lemma interestRate_nonzero (userData : option UserData.t) :
  App.interestRate userData <> Fin 0
  /\ (App.interestRate userData =? of_Z 0)%num = false.
Proof.
  destruct (interestRate_pos userData) as [r [Hr Hr0]]. rewrite Hr.
  pose proof (Qc_pos_neq r Hr0) as Hne. split.
  - intros E. injection E as E. contradiction.
  - rewrite of_Z_0. cbn [eqb]. now apply Qc_eqb_neq.
Qed.
End CardPlans.

Section PlanClaims.
Local Open Scope Qc_scope.

Lemma financing_monthlyPayment_cases (p d r : Qc) (t : Z) (ui : UserInput.t) :
  UserInput.downPayment ui = Fin d ->
  UserInput.loanTerm ui = t ->
  0 < r -> (1 <= t)%Z ->
  exists M : Qc,
    FinancingPlan.monthlyPayment
      (FinancingPage.financingPlan (Fin p) ui (Fin r)) = Fin M
    /\ App.calculateMonthlyPayment (Fin p - Fin d)%num (Fin r) t = Fin M
    /\ (d <= p -> 0 <= M)
    /\ (p <= d -> M = 0).
Proof.
  intros Hd Ht Hr Ht1.
  unfold FinancingPage.financingPlan, App.calculateMonthlyPayment.
  cbn [FinancingPlan.monthlyPayment]. rewrite Hd, Ht.
  destruct (monthly_rate_pos r Hr) as [i [Hi Hipos]]. rewrite Hi.
  cbn [sub neg add]. unfold gtb. rewrite of_Z_0. cbn [ltb leb eqb].
  assert (Hi0 : Qc_eqb i 0 = false).
  { apply Qc_eqb_neq. intros ->. now apply Qclt_not_eq in Hipos. }
  rewrite Hi0.
  destruct (Qc_ltb 0 (p + - d)) eqn:Epos.
  - assert (Hle : Qc_leb (p + - d) 0 = false)
      by (qc_arith; apply Qc_leb_gt; qc2q; lra).
    rewrite Hle.
    destruct (annuity_nonneg (p + - d) i (t * 12)) as [M [HM HM0]];
      [qc_arith; lra | exact Hipos | lia |].
    exists M. rewrite HM. repeat split; auto.
    intros Hpd. exfalso. qc_arith. lra.
  - assert (Hle : Qc_leb (p + - d) 0 = true)
      by (qc_arith; apply Qc_leb_le; qc2q; lra).
    rewrite Hle. exists 0. repeat split; auto. intros _. apply Qcle_refl.
Qed.


Lemma financing_totalCost (price rate : number) (ui : UserInput.t) :
  FinancingPlan.totalCost (FinancingPage.financingPlan price ui rate)
  = (FinancingPlan.monthlyPayment (FinancingPage.financingPlan price ui rate)
     * of_Z (UserInput.loanTerm ui * 12)
     + UserInput.downPayment ui)%num.
Proof. reflexivity. Qed.

Lemma no_payment_without_principal
    (p d : Qc) (rate : number) (t : Z) (ui : UserInput.t) :
  UserInput.downPayment ui = Fin d ->
  UserInput.loanTerm ui = t ->
  p <= d ->
  FinancingPlan.monthlyPayment
    (FinancingPage.financingPlan (Fin p) ui rate) = Fin 0
  /\ FinancingPlan.totalCost
       (FinancingPage.financingPlan (Fin p) ui rate) = Fin d
  /\ App.calculateMonthlyPayment (Fin p - Fin d)%num rate t = Fin 0.
Proof.
  intros Hd Ht Hpd.
  unfold FinancingPage.financingPlan, App.calculateMonthlyPayment.
  cbn [FinancingPlan.monthlyPayment FinancingPlan.totalCost].
  rewrite Hd, Ht. cbn [sub neg add]. unfold gtb. rewrite of_Z_0.
  cbn [ltb leb].
  assert (H1 : Qc_ltb 0 (p + - d) = false) by (apply Qc_ltb_ge; qc2q; lra).
  assert (H2 : Qc_leb (p + - d) 0 = true) by (apply Qc_leb_le; qc2q; lra).
  rewrite H1, H2. repeat split.
  rewrite of_Z_zQc. cbn [mul add]. f_equal. ring.
Qed.

End PlanClaims.

(** C2, as stated, fails on the code: the financing-plan computation of
    the plan factory has no zero-rate branch.  At an annual rate of 0, for
    a principal of 27000 over five years, it evaluates [0 / 0]: the monthly
    payment and the total cost are [NaN], where the standalone calculator
    returns [27000 / 60 = 450]. *)
Lemma plan_factory_divides_zero_by_zero :
  let f := FinancingPage.financingPlan (of_Z 32000) Sample.input (of_Z 0) in
  (of_Z 32000 - UserInput.downPayment Sample.input)%num = of_Z 27000
  /\ UserInput.loanTerm Sample.input = 5%Z
  /\ (App.calculateMonthlyPayment (of_Z 27000) (of_Z 0) 5 =? of_Z 450)%num
     = true
  /\ FinancingPlan.monthlyPayment f = NaN
  /\ FinancingPlan.totalCost f = NaN
  /\ (FinancingPlan.monthlyPayment f =? of_Z 450)%num = false.
Proof.
  cbv zeta. repeat split; vm_compute; reflexivity.
Qed.

(** C2 (amended): with a positive principal and a term of at least one
    year, the standalone calculator returns exactly [P / (t * 12)] at rate
    zero, a finite number.  The plan factory applies the annuity formula
    without a zero-rate branch and yields [NaN] for the monthly payment and
    for the total cost when it is called with rate zero; the application
    does not call it so: the rate that it passes is the one of the rate
    model, which is never zero, and at that rate the plan factory and the
    calculator compute the same monthly payment. *)
Theorem zero_rate_is_handled_by_the_calculator_only
    (price : number) (userInput : UserInput.t) (P : Qc) (t : Z) :
  (price - UserInput.downPayment userInput)%num = Fin P ->
  (0 < P)%Qc ->
  UserInput.loanTerm userInput = t ->
  (1 <= t)%Z ->
  App.calculateMonthlyPayment (Fin P) (of_Z 0) t = Fin (P / zQc (t * 12))
  /\ FinancingPlan.monthlyPayment
       (FinancingPage.financingPlan price userInput (of_Z 0)) = NaN
  /\ FinancingPlan.totalCost
       (FinancingPage.financingPlan price userInput (of_Z 0)) = NaN
  /\ forall userData : option UserData.t,
       (App.interestRate userData =? of_Z 0)%num = false
       /\ FinancingPlan.monthlyPayment
            (FinancingPage.financingPlan price userInput
               (App.interestRate userData))
          = App.calculateMonthlyPayment (Fin P) (App.interestRate userData) t.
Proof.
  intros HP Hpos Hterm Ht.
  split; [now apply calculateMonthlyPayment_zero_rate |].
  split; [| split].
  - unfold FinancingPage.financingPlan.
    cbn [FinancingPlan.monthlyPayment].
    rewrite HP, monthly_rate_of_zero, annuity_zero_rate.
    assert (Hgt : (Fin P >? of_Z 0)%num = true)
      by (cbn; apply Qc_ltb_lt; exact Hpos).
    now rewrite Hgt.
  - unfold FinancingPage.financingPlan.
    cbn [FinancingPlan.monthlyPayment FinancingPlan.totalCost].
    rewrite HP, monthly_rate_of_zero, annuity_zero_rate.
    assert (Hgt : (Fin P >? of_Z 0)%num = true)
      by (cbn; apply Qc_ltb_lt; exact Hpos).
    now rewrite Hgt.
  - intros userData.
    destruct (interestRate_nonzero userData) as [Hne Heqb].
    split; [exact Heqb |]. subst t.
    now apply plan_factory_agrees_with_calculator.
Qed.

Lemma zero_rate_is_handled_by_the_calculator_only_witness :
  App.calculateMonthlyPayment (of_Z 27000) (of_Z 0) 5
  = Fin (Q2Qc 27000 / zQc 60)
  /\ FinancingPlan.monthlyPayment
       (FinancingPage.financingPlan (of_Z 32000) Sample.input
          (App.interestRate (Some Sample.dataA)))
     = App.calculateMonthlyPayment (of_Z 27000)
         (App.interestRate (Some Sample.dataA)) 5.
Proof.
  assert (HP : (of_Z 32000 - UserInput.downPayment Sample.input)%num
               = Fin (Q2Qc 27000))
    by (cbn; f_equal; try now apply Qc_is_canon).
  assert (Hpos : (0 < Q2Qc 27000)%Qc) by (apply Qc_ltb_lt; reflexivity).
  assert (Ht : (1 <= 5)%Z) by lia.
  pose proof (zero_rate_is_handled_by_the_calculator_only (of_Z 32000)
                Sample.input (Q2Qc 27000) 5 HP Hpos eq_refl Ht) as H.
  exact (conj (proj1 H)
              (proj2 (proj2 (proj2 (proj2 H)) (Some Sample.dataA)))).
Defined.

(** C8, as stated, fails on the code: with a down payment of 25000 on a
    price of 20000 the financing plan carries [loanAmount = -5000], and the
    lease has a negative monthly payment. *)
Lemma down_payment_above_price_goes_negative :
  let f := FinancingPage.financingPlan (of_Z 20000) Sample.inputOver
                                       (lit 65 1000) in
  let l := FinancingPage.leasingPlan (of_Z 20000) Sample.inputOver
                                     (lit 65 1000) in
  (FinancingPlan.loanAmount f =? of_Z (-5000))%num = true
  /\ ~ nonNegative (FinancingPlan.loanAmount f)
  /\ ~ nonNegative (LeasingPlan.monthlyPayment l).
Proof.
  cbv zeta. unfold nonNegative.
  split; [vm_compute; reflexivity |].
  split; vm_compute; discriminate.
Qed.

(** The signs of the plan fields at a finite rate [r], over the
    rationals. *)
Lemma plan_signs
    (p d r : Qc) (t : Z) (userInput : UserInput.t) :
  UserInput.downPayment userInput = Fin d ->
  UserInput.loanTerm userInput = t ->
  let f := FinancingPage.financingPlan (Fin p) userInput (Fin r) in
  let l := FinancingPage.leasingPlan (Fin p) userInput (Fin r) in
  let s := App.recommendationPlan (Fin p) (Fin d) t (Fin r) in
  FinancingPlan.loanAmount f = Fin (p - d)
  /\ SimpleFinancingPlan.loanAmount s = Fin (p - d)
  /\ ((p < d)%Qc ->
      ~ nonNegative (FinancingPlan.loanAmount f)
      /\ FinancingPlan.monthlyPayment f = Fin 0
      /\ FinancingPlan.totalCost f = Fin d
      /\ SimpleFinancingPlan.monthlyPayment s = Fin 0)
  /\ ((0 <= d)%Qc -> (d <= p)%Qc -> (0 < r)%Qc -> (1 <= t)%Z ->
      nonNegative (FinancingPlan.loanAmount f)
      /\ nonNegative (FinancingPlan.monthlyPayment f)
      /\ nonNegative (FinancingPlan.totalCost f)
      /\ nonNegative (SimpleFinancingPlan.monthlyPayment s)
      /\ nonNegative (SimpleFinancingPlan.totalCost s))
  /\ ((0 <= p)%Qc -> nonNegative (LeasingPlan.residualValue l))
  /\ ((0 <= d)%Qc -> (d <= Q2Qc (45 # 100) * p)%Qc -> (0 <= r)%Qc ->
      nonNegative (LeasingPlan.monthlyPayment l)
      /\ nonNegative (LeasingPlan.dueAtSigning l)).
Proof.
  intros Hd Ht f l s. subst f l s.
  assert (Hf : FinancingPlan.loanAmount
                 (FinancingPage.financingPlan (Fin p) userInput (Fin r))
               = Fin (p - d)).
  { unfold FinancingPage.financingPlan.
    cbn [FinancingPlan.loanAmount]. now rewrite Hd. }
  assert (Hs : SimpleFinancingPlan.loanAmount
                 (App.recommendationPlan (Fin p) (Fin d) t (Fin r))
               = Fin (p - d)) by reflexivity.
  split; [exact Hf |]. split; [exact Hs |]. split; [| split; [| split]].
  - intros Hlt.
    destruct (no_payment_without_principal p d (Fin r) t userInput Hd Ht)
      as (Hm & Hc & Hcalc); [now apply Qclt_le_weak |].
    split; [| split; [exact Hm | split; [exact Hc | exact Hcalc]]].
    rewrite Hf, nonNegative_Fin. intros H. qc2q. lra.
  - intros Hd0 Hdp Hr Ht1.
    destruct (financing_monthlyPayment_cases p d r t userInput Hd Ht Hr Ht1)
      as (M & HfM & HsM & HM0 & _).
    specialize (HM0 Hdp).
    assert (Hn : (0 <= zQc (t * 12))%Qc)
      by (apply Qclt_le_weak, zQc_pos; lia).
    assert (Hcost : (0 <= M * zQc (t * 12) + d)%Qc).
    { revert Hn. generalize (zQc (t * 12)). intros n Hn. qc2q. nra. }
    split; [rewrite Hf, nonNegative_Fin; qc2q; lra |].
    split; [rewrite HfM; now apply nonNegative_Fin |].
    split.
    { rewrite financing_totalCost, HfM, Hd, Ht, of_Z_zQc.
      cbn [mul add]. now apply nonNegative_Fin. }
    unfold App.recommendationPlan.
    cbn [SimpleFinancingPlan.totalCost SimpleFinancingPlan.monthlyPayment].
    rewrite HsM. split; [now apply nonNegative_Fin |].
    rewrite of_Z_zQc. cbn [mul add]. now apply nonNegative_Fin.
  - intros Hp. unfold FinancingPage.leasingPlan.
    cbn [LeasingPlan.residualValue]. unfold lit, of_Q. cbn [mul].
    apply nonNegative_Fin. qc2q. lra.
  - intros Hd0 Hd45 Hr. unfold FinancingPage.leasingPlan.
    cbn [LeasingPlan.monthlyPayment LeasingPlan.dueAtSigning].
    rewrite Hd. unfold lit, of_Q. rewrite !of_Z_zQc.
    cbn [mul sub neg add].
    rewrite !div_finite
      by (intros H; apply (f_equal this) in H; vm_compute in H; discriminate).
    cbn [mul sub neg add].
    set (res := (p * Q2Qc (55 # 100))%Qc).
    assert (Hdep : (0 <= (p + - d + - res) / zQc 36)%Qc).
    { apply Qcdiv_nonneg; [subst res; qc2q; lra | apply zQc_pos; lia]. }
    assert (Hmf : (0 <= r / zQc 2400)%Qc)
      by (apply Qcdiv_nonneg; [exact Hr | apply zQc_pos; lia]).
    assert (Hcap : (0 <= p + - d + res)%Qc) by (subst res; qc2q; lra).
    assert (Hfin : (0 <= (p + - d + res) * (r / zQc 2400))%Qc).
    { revert Hmf Hcap. generalize (r / zQc 2400)%Qc (p + - d + res)%Qc.
      intros a b Ha Hb. qc2q. nra. }
    revert Hdep Hfin.
    generalize ((p + - d + - res) / zQc 36)%Qc
               ((p + - d + res) * (r / zQc 2400))%Qc.
    intros a b Ha Hb.
    split; apply nonNegative_Fin; qc2q; lra.
Qed.


(** C8 (amended): the plan factory computes [loanAmount = price -
    downPayment] without clamping.  When the down payment exceeds the price
    the loan amount is negative, the monthly payment is 0 and the total
    cost is the down payment.  At the rate that the application passes (the
    one of the rate model), for [0 <= downPayment <= price] and a term of
    1 to 15 years, the loan amount, the monthly payment and the total cost
    of the financing plan and of the card plan are not negative.  The
    residual value of the lease is not negative for a price that is not
    negative, and at that rate its monthly payment and amount due at
    signing are not negative when [0 <= downPayment <= 0.45 * price]. *)
Theorem plan_currency_fields
    (p d : Qc) (t : Z) (userData : option UserData.t)
    (userInput : UserInput.t) :
  UserInput.downPayment userInput = Fin d ->
  UserInput.loanTerm userInput = t ->
  let rate := App.interestRate userData in
  let f := FinancingPage.financingPlan (Fin p) userInput rate in
  let l := FinancingPage.leasingPlan (Fin p) userInput rate in
  let s := App.recommendationPlan (Fin p) (Fin d) t rate in
  FinancingPlan.loanAmount f = (Fin p - Fin d)%num
  /\ SimpleFinancingPlan.loanAmount s = (Fin p - Fin d)%num
  /\ ((p < d)%Qc ->
      ~ nonNegative (FinancingPlan.loanAmount f)
      /\ FinancingPlan.monthlyPayment f = of_Z 0
      /\ FinancingPlan.totalCost f = Fin d
      /\ SimpleFinancingPlan.monthlyPayment s = of_Z 0)
  /\ ((0 <= d)%Qc -> (d <= p)%Qc -> (1 <= t <= 15)%Z ->
      nonNegative (FinancingPlan.loanAmount f)
      /\ nonNegative (FinancingPlan.monthlyPayment f)
      /\ nonNegative (FinancingPlan.totalCost f)
      /\ nonNegative (SimpleFinancingPlan.monthlyPayment s)
      /\ nonNegative (SimpleFinancingPlan.totalCost s))
  /\ ((0 <= p)%Qc -> nonNegative (LeasingPlan.residualValue l))
  /\ ((0 <= d)%Qc -> (d <= Q2Qc (45 # 100) * p)%Qc ->
      nonNegative (LeasingPlan.monthlyPayment l)
      /\ nonNegative (LeasingPlan.dueAtSigning l)).
Proof.
  intros Hd Ht. cbv zeta.
  destruct (interestRate_pos userData) as [r [Hr Hr0]]. rewrite Hr.
  destruct (plan_signs p d r t userInput Hd Ht)
    as (Hf & Hs & Hover & Hfin & Hres & Hlease).
  split; [exact Hf |]. split; [exact Hs |].
  split; [exact Hover |].
  split; [| split; [exact Hres |]].
  - intros Hd0 Hdp [Ht1 _]. now apply Hfin.
  - intros Hd0 Hd45. apply Hlease; auto. now apply Qclt_le_weak.
Qed.

Lemma plan_currency_fields_witness :
  nonNegative
    (FinancingPlan.monthlyPayment
       (FinancingPage.financingPlan (of_Z 32000) Sample.input
          (App.interestRate (Some Sample.dataA))))
  /\ nonNegative
       (FinancingPlan.totalCost
          (FinancingPage.financingPlan (of_Z 32000) Sample.input
             (App.interestRate (Some Sample.dataA)))).
Proof.
  assert (Hd0 : (0 <= Q2Qc 5000)%Qc) by (apply Qc_leb_le; reflexivity).
  assert (Hdp : (Q2Qc 5000 <= Q2Qc 32000)%Qc)
    by (apply Qc_leb_le; reflexivity).
  assert (Ht : (1 <= 5 <= 15)%Z) by lia.
  pose proof (proj1 (proj2 (proj2 (proj2
    (plan_currency_fields (Q2Qc 32000) (Q2Qc 5000) 5 (Some Sample.dataA)
       Sample.input eq_refl eq_refl)))) Hd0 Hdp Ht) as H.
  exact (conj (proj1 (proj2 H)) (proj1 (proj2 (proj2 H)))).
Defined.

(* ================================================================== *)
(** * Further properties of the code *)

(** ** The rate model *)

(** X1: whatever the score is, [getInterestRate] answers one of its five
    rates; the rate lies between 0.05 and 0.18 and is never zero.  A score
    that is not a number gets the highest rate. *)
Theorem getInterestRate_range (score : number) :
  In (App.getInterestRate score)
     [lit 5 100; lit 65 1000; lit 8 100; lit 12 100; lit 18 100]
  /\ (lit 5 100 <=? App.getInterestRate score)%num = true
  /\ (App.getInterestRate score <=? lit 18 100)%num = true
  /\ (App.getInterestRate score =? of_Z 0)%num = false
  /\ App.getInterestRate NaN = lit 18 100.
Proof.
  split; [apply getInterestRate_cases |].
  pose proof (getInterestRate_cases score) as H.
  cbn [In] in H.
  repeat split;
    try (destruct H as [H|[H|[H|[H|[H|[]]]]]]; rewrite <- H; reflexivity).
Qed.

(** X2: the rate never rises with the score: a score that is at least as
    high gets a rate that is at most as high. *)
Theorem getInterestRate_antitone (s1 s2 : number) :
  (s1 <=? s2)%num = true ->
  (App.getInterestRate s2 <=? App.getInterestRate s1)%num = true.
Proof.
  intros H. unfold App.getInterestRate, geb.
  destruct s1 as [x| | |], s2 as [y| | |]; cbn in H; try discriminate;
    try reflexivity.
  - rewrite !of_Z_zQc. cbn [leb].
    destruct (Qc_leb (zQc 760) x) eqn:B1.
    { now rewrite (Qc_leb_trans_r _ _ _ B1 H). }
    destruct (Qc_leb (zQc 700) x) eqn:B2.
    { rewrite (Qc_leb_trans_r _ _ _ B2 H).
      now destruct (Qc_leb (zQc 760) y). }
    destruct (Qc_leb (zQc 650) x) eqn:B3.
    { rewrite (Qc_leb_trans_r _ _ _ B3 H).
      now destruct (Qc_leb (zQc 760) y), (Qc_leb (zQc 700) y). }
    destruct (Qc_leb (zQc 600) x) eqn:B4.
    { rewrite (Qc_leb_trans_r _ _ _ B4 H).
      now destruct (Qc_leb (zQc 760) y), (Qc_leb (zQc 700) y),
                   (Qc_leb (zQc 650) y). }
    now destruct (Qc_leb (zQc 760) y), (Qc_leb (zQc 700) y),
                 (Qc_leb (zQc 650) y), (Qc_leb (zQc 600) y).
  - cbn. repeat match goal with
         | |- context [if ?c then _ else _] => destruct c
         end; reflexivity.
  - cbn. repeat match goal with
         | |- context [if ?c then _ else _] => destruct c
         end; reflexivity.
Qed.

Lemma getInterestRate_antitone_witness :
  (App.getInterestRate (of_Z 720) <=? App.getInterestRate (of_Z 650))%num
  = true.
Proof. apply getInterestRate_antitone. reflexivity. Defined.

(** ** Card plans and the affordable price range *)

(** X3: at the rate that the application passes to both (the one of the
    rate model), the card plan of the results page ([recommendationPlan])
    and the plan of the financing page ([financingPlan]) agree on the
    monthly payment, the total cost, the rate and the loan amount,
    whatever the finite price, down payment and term. *)
Theorem card_plan_agrees_with_plan_factory
    (p d : Qc) (userData : option UserData.t) (userInput : UserInput.t) :
  UserInput.downPayment userInput = Fin d ->
  let rate := App.interestRate userData in
  let f := FinancingPage.financingPlan (Fin p) userInput rate in
  let s := App.recommendationPlan (Fin p) (Fin d)
             (UserInput.loanTerm userInput) rate in
  SimpleFinancingPlan.monthlyPayment s = FinancingPlan.monthlyPayment f
  /\ SimpleFinancingPlan.totalCost s = FinancingPlan.totalCost f
  /\ SimpleFinancingPlan.interestRate s = FinancingPlan.interestRate f
  /\ SimpleFinancingPlan.loanAmount s = FinancingPlan.loanAmount f.
Proof.
  intros Hd. cbv zeta.
  destruct (interestRate_nonzero userData) as [Hr _].
  set (rate := App.interestRate userData) in *.
  assert (HM : SimpleFinancingPlan.monthlyPayment
                 (App.recommendationPlan (Fin p) (Fin d)
                    (UserInput.loanTerm userInput) rate)
               = FinancingPlan.monthlyPayment
                   (FinancingPage.financingPlan (Fin p) userInput rate)).
  { symmetry. unfold App.recommendationPlan.
    cbn [SimpleFinancingPlan.monthlyPayment]. cbn [sub neg add].
    apply plan_factory_agrees_with_calculator; [| exact Hr].
    now rewrite Hd. }
  split; [exact HM |].
  split; [| split].
  - rewrite financing_totalCost, <- HM, Hd. reflexivity.
  - reflexivity.
  - unfold App.recommendationPlan, FinancingPage.financingPlan.
    cbn [SimpleFinancingPlan.loanAmount FinancingPlan.loanAmount].
    now rewrite Hd.
Qed.

Lemma card_plan_agrees_with_plan_factory_witness :
  SimpleFinancingPlan.monthlyPayment
    (App.recommendationPlan (Fin (Q2Qc 32000)) (Fin (Q2Qc 5000))
       (UserInput.loanTerm Sample.input)
       (App.interestRate (Some Sample.dataA)))
  = FinancingPlan.monthlyPayment
      (FinancingPage.financingPlan (Fin (Q2Qc 32000)) Sample.input
                                   (App.interestRate (Some Sample.dataA))).
Proof.
  exact (proj1 (card_plan_agrees_with_plan_factory
                  (Q2Qc 32000) (Q2Qc 5000) (Some Sample.dataA) Sample.input
                  eq_refl)).
Defined.

(** X5: for a finite income and down payment that are not negative and a
    term of 0 to 15 years, the affordable price range is ordered:
    [min = 0.7 * max], [0 <= min <= max] and [downPayment <= max]; the rate
    is the one of the credit score, so the division of the formula is
    never by zero. *)
Theorem affordablePriceRange_is_ordered
    (userData : UserData.t) (I d : Qc) :
  UserInput.income (UserData.userInput userData) = Fin I ->
  UserInput.downPayment (UserData.userInput userData) = Fin d ->
  (0 <= I)%Qc -> (0 <= d)%Qc ->
  (0 <= UserInput.loanTerm (UserData.userInput userData) <= 15)%Z ->
  let range := App.affordablePriceRange (Some userData) in
  App.min range = (App.max range * lit 7 10)%num
  /\ nonNegative (App.min range)
  /\ (App.min range <=? App.max range)%num = true
  /\ (UserInput.downPayment (UserData.userInput userData)
      <=? App.max range)%num = true
  /\ App.interestRate (Some userData)
     = App.getInterestRate
         (UserInput.creditScore (UserData.userInput userData))
  /\ (App.interestRate (Some userData) =? of_Z 0)%num = false.
Proof.
  intros HI Hd HI0 Hd0 [Ht _]. cbv zeta.
  split; [reflexivity |].
  split; [| split; [| split; [| split; [reflexivity |]]]];
    [| | | apply interestRate_nonzero].
  all: unfold App.affordablePriceRange, App.affordability;
    cbn [fst snd App.min App.max]; rewrite HI, Hd;
    destruct (getInterestRate_pos
                (UserInput.creditScore (UserData.userInput userData)))
      as [r [Hr Hr0]];
    rewrite Hr;
    destruct (monthly_rate_pos r Hr0) as [i [Hi Hi0]]; rewrite Hi;
    destruct (annuity_factor i
                (UserInput.loanTerm (UserData.userInput userData) * 12)
                Hi0 ltac:(lia)) as [F [HF [HF0 _]]];
    rewrite HF;
    assert (H12 : zQc 12 <> Q2Qc 0) by (apply Qc_pos_neq, zQc_pos; lia);
    rewrite of_Z_zQc, div_finite by exact H12;
    unfold lit, of_Q; cbn [mul add];
    assert (HM : (0 <= I / zQc 12 * Q2Qc (15 # 100))%Qc)
      by (pose proof (Qcdiv_nonneg I (zQc 12) HI0
                        ltac:(apply zQc_pos; lia)) as H;
          revert H; generalize (I / zQc 12)%Qc; intros m H; qc2q; nra);
    revert HM; generalize (I / zQc 12 * Q2Qc (15 # 100))%Qc; intros M HM;
    assert (HL : (0 <= M * F)%Qc) by (qc2q; nra);
    revert HL; generalize (M * F)%Qc; intros L HL.
  - apply nonNegative_Fin. qc2q. nra.
  - cbn [leb]. apply Qc_leb_le. qc2q. nra.
  - cbn [leb]. apply Qc_leb_le. qc2q. lra.
Qed.

Lemma affordablePriceRange_is_ordered_witness :
  (App.min (App.affordablePriceRange (Some Sample.dataA))
   <=? App.max (App.affordablePriceRange (Some Sample.dataA)))%num = true.
Proof.
  assert (HI : (0 <= Q2Qc 75000)%Qc) by (apply Qc_leb_le; reflexivity).
  assert (Hd : (0 <= Q2Qc 5000)%Qc) by (apply Qc_leb_le; reflexivity).
  assert (Ht : (0 <= UserInput.loanTerm (UserData.userInput Sample.dataA)
                <= 15)%Z)
    by (vm_compute; split; discriminate).
  exact (proj1 (proj2 (proj2
    (affordablePriceRange_is_ordered
       Sample.dataA (Q2Qc 75000) (Q2Qc 5000) eq_refl eq_refl HI Hd Ht)))).
Defined.

(** ** Sorting with a number-valued comparator *)

Section ComparatorSort.
Context {A : Type}.
Variable cmp : A -> A -> number.

Lemma JSArray_insert_perm x l : Permutation (x :: l) (JSArray.insert cmp x l).
Proof.
  induction l as [| y ys IH]; cbn [JSArray.insert]; [reflexivity |].
  destruct (JSArray.goes_after (cmp x y)); [| reflexivity].
  rewrite perm_swap. now apply perm_skip.
Qed.

Lemma JSArray_sort_perm l : Permutation l (JSArray.sort cmp l).
Proof.
  induction l as [| x l IH]; cbn [JSArray.sort fold_right]; [reflexivity |].
  rewrite <- JSArray_insert_perm. now apply perm_skip.
Qed.

(** An array that the comparator already accepts comes back as it is. *)
Lemma JSArray_sort_of_sorted l :
  StronglySorted (fun x y => JSArray.goes_after (cmp x y) = false) l ->
  JSArray.sort cmp l = l.
Proof.
  induction 1 as [| x l Hs IH Hx]; [reflexivity |].
  cbn [JSArray.sort fold_right]. fold (JSArray.sort cmp l). rewrite IH.
  destruct l as [| y ys]; [reflexivity |]. cbn [JSArray.insert].
  inversion Hx as [| ? ? Hxy _]; subst. now rewrite Hxy.
Qed.

(** The order [R] that a comparator realises on the elements that
    satisfy [P]. *)
Variable R : A -> A -> Prop.
Variable P : A -> Prop.
Hypothesis R_trans : forall x y z, R x y -> R y z -> R x z.
Hypothesis stays :
  forall x y, P x -> P y -> JSArray.goes_after (cmp x y) = false -> R x y.
Hypothesis moves :
  forall x y, P x -> P y -> JSArray.goes_after (cmp x y) = true -> R y x.

Lemma JSArray_insert_sorted x l :
  P x -> Forall P l ->
  StronglySorted R l -> StronglySorted R (JSArray.insert cmp x l).
Proof.
  intros Px Pl. induction 1 as [| y ys Hs IH Hy]; cbn [JSArray.insert].
  - repeat constructor.
  - inversion Pl as [| ? ? Py Pys]; subst.
    destruct (JSArray.goes_after (cmp x y)) eqn:E.
    + constructor; [now apply IH |].
      rewrite <- (JSArray_insert_perm x ys).
      constructor; [now apply moves | exact Hy].
    + constructor; [now constructor |].
      constructor; [now apply stays |].
      eapply Forall_impl; [| exact Hy]. intros z Hz.
      eapply R_trans; [apply stays; eassumption | exact Hz].
Qed.

Lemma JSArray_sort_sorted l :
  Forall P l -> StronglySorted R (JSArray.sort cmp l).
Proof.
  induction 1 as [| x l Px Pl IH]; cbn [JSArray.sort fold_right];
    [constructor |].
  apply JSArray_insert_sorted; [exact Px | | exact IH].
  now rewrite <- (JSArray_sort_perm l).
Qed.
End ComparatorSort.

Section ComparatorFacts.

(** The comparator [b - a] moves [a] behind [b] exactly when [a < b]. *)
Lemma sub_pos_ltb (a b : number) :
  JSArray.goes_after (b - a)%num = (a <? b)%num.
Proof.
  unfold JSArray.goes_after, gtb. rewrite of_Z_0.
  destruct a as [x| | |], b as [y| | |]; try reflexivity.
  cbn [sub neg add ltb].
  destruct (Qc_ltb x y) eqn:E.
  - apply Qc_ltb_lt. qc_arith. lra.
  - apply Qc_ltb_ge. qc_arith. lra.
Qed.

Lemma StronglySorted_weaken {A} (R R' : A -> A -> Prop) l :
  (forall x y, R x y -> R' x y) ->
  StronglySorted R l -> StronglySorted R' l.
Proof.
  intros HR. induction 1 as [| x l Hs IH Hx]; constructor; [exact IH |].
  eapply Forall_impl; [| exact Hx]. intros y. apply HR.
Qed.

Lemma goes_after_minus_one : JSArray.goes_after (of_Z (-1)) = false.
Proof. reflexivity. Qed.

Lemma goes_after_one : JSArray.goes_after (of_Z 1) = true.
Proof. reflexivity. Qed.

Lemma In_firstn {A} (x : A) n l : In x (firstn n l) -> In x l.
Proof.
  revert l. induction n as [| n IH]; intros [| y l]; cbn [firstn]; try easy.
  intros [-> | H]; [now left | right; now apply IH].
Qed.

Lemma filter_all {A} (f : A -> bool) l :
  (forall x, In x l -> f x = true) -> filter f l = l.
Proof.
  induction l as [| x l IH]; intros H; [reflexivity |]. cbn [filter].
  rewrite (H x) by now left. f_equal. apply IH. intros y Hy. apply H.
  now right.
Qed.

Lemma filter_filter_same {A} (f : A -> bool) l :
  filter f (filter f l) = filter f l.
Proof.
  apply filter_all. intros x Hx. now apply filter_In in Hx.
Qed.
End ComparatorFacts.

(** ** Matching vehicles and recommendation cards *)

Section Recommendations.
Variable TOYOTA_FLEET : list ToyotaVehicle.t.

Lemma In_locallyFilteredVehicles v ud :
  In v (App.locallyFilteredVehicles TOYOTA_FLEET (Some ud))
  -> In v TOYOTA_FLEET
     /\ (UserInput.minSeats (UserData.userInput ud)
         <= ToyotaVehicle.seatingCapacity v)%Z.
Proof.
  unfold App.locallyFilteredVehicles. rewrite filter_In.
  intros [Hin H]. split; [exact Hin |].
  apply andb_prop in H. destruct H as [_ H]. apply Z.geb_le in H. lia.
Qed.

(** X7: every recommendation card is a vehicle of the fleet with enough
    seats and a price of at most 1.1 times the top of the price range,
    flagged when the advisor named its model and carrying the card plan
    of its price.  When the prices of the fleet are finite (the comparator
    is then consistent), no card that is not a top match precedes a top
    match, and cards with the same flag are in order of ascending
    price. *)
Theorem recommendations_are_ranked
    (ud : UserData.t) (topModels : list string) :
  let recs :=
    App.finalVehicleRecommendations TOYOTA_FLEET (Some ud) topModels in
  (forall r,
     In r recs ->
     In (VehicleRecommendation.vehicle r) TOYOTA_FLEET
     /\ (VehicleRecommendation.price r
         <=? App.max (App.affordablePriceRange (Some ud)) * lit 11 10)%num
        = true
     /\ (UserInput.minSeats (UserData.userInput ud)
         <= ToyotaVehicle.seatingCapacity (VehicleRecommendation.vehicle r))%Z
     /\ VehicleRecommendation.isTopMatch r
        = JSArray.includes topModels
            (ToyotaVehicle.model (VehicleRecommendation.vehicle r))
     /\ VehicleRecommendation.financingPlan r
        = App.recommendationPlan (VehicleRecommendation.price r)
            (UserInput.downPayment (UserData.userInput ud))
            (UserInput.loanTerm (UserData.userInput ud))
            (App.interestRate (Some ud)))
  /\ (Forall (fun v => is_finite (ToyotaVehicle.price v)) TOYOTA_FLEET ->
      StronglySorted (fun a b => topFirst a b /\ cheaperFirst a b) recs).
Proof.
  cbv zeta. unfold App.finalVehicleRecommendations.
  match goal with
  | |- context [JSArray.sort ?c (map ?f ?m)] =>
      set (cmp := c); set (mk := f); set (matching := m)
  end.
  assert (Hmem : forall r, In r (map mk matching) ->
            exists v, r = mk v /\ In v matching).
  { intros r Hr. apply in_map_iff in Hr. destruct Hr as [v [<- Hv]]. eauto. }
  split.
  - intros r Hr. rewrite <- (JSArray_sort_perm cmp) in Hr.
    destruct (Hmem r Hr) as [v [-> Hv]]. subst matching.
    apply filter_In in Hv. destruct Hv as [Hv Hprice].
    apply In_locallyFilteredVehicles in Hv. destruct Hv as [Hfleet Hseats].
    subst mk. cbn [VehicleRecommendation.vehicle VehicleRecommendation.price
                   VehicleRecommendation.isTopMatch
                   VehicleRecommendation.financingPlan].
    unfold VehicleRecommendation.price.
    cbn [VehicleRecommendation.vehicle]. repeat split; auto.
  - intros Hfin.
    apply (StronglySorted_weaken
             (fun a b =>
                topFirst a b
                /\ (VehicleRecommendation.isTopMatch a
                    = VehicleRecommendation.isTopMatch b ->
                    exists x y : Qc,
                      VehicleRecommendation.price a = Fin x
                      /\ VehicleRecommendation.price b = Fin y
                      /\ (x <= y)%Qc))).
    { intros a b [Htop H]. split; [exact Htop |]. intros E.
      destruct (H E) as (x & y & Ha & Hb & Hxy).
      rewrite Ha, Hb. cbn [leb]. now apply Qc_leb_le. }
    apply (JSArray_sort_sorted cmp _
             (fun r => is_finite (VehicleRecommendation.price r))).
    + intros a b c [Hab Pab] [Hbc Pbc]. split.
      * destruct Hab as [Ha | Hb], Hbc as [Hb' | Hc]; unfold topFirst; auto.
        congruence.
      * intros E.
        assert (Eab : VehicleRecommendation.isTopMatch a
                      = VehicleRecommendation.isTopMatch b).
        { unfold topFirst in *.
          destruct (VehicleRecommendation.isTopMatch a),
                   (VehicleRecommendation.isTopMatch b),
                   (VehicleRecommendation.isTopMatch c);
            intuition congruence. }
        destruct (Pab Eab) as (x & y & Ha & Hb & Hxy).
        destruct (Pbc ltac:(congruence)) as (y' & z & Hb' & Hc & Hyz).
        rewrite Hb in Hb'. injection Hb' as <-.
        exists x, z. repeat split; auto. now apply Qcle_trans with y.
    + intros a b Pa Pb. subst cmp. cbv beta. unfold topFirst.
      destruct (VehicleRecommendation.price a) as [x| | |] eqn:Ea;
        try contradiction.
      destruct (VehicleRecommendation.price b) as [y| | |] eqn:Eb;
        try contradiction.
      destruct (VehicleRecommendation.isTopMatch a),
               (VehicleRecommendation.isTopMatch b); cbn [andb negb];
        rewrite ?goes_after_one, ?goes_after_minus_one;
        try discriminate; try (intros _; split; [auto | discriminate]).
      all: rewrite sub_pos_ltb; cbn [ltb]; intros H; split; auto;
        intros _; exists x, y; repeat split;
        apply Qc_ltb_ge in H; exact H.
    + intros a b Pa Pb. subst cmp. cbv beta. unfold topFirst.
      destruct (VehicleRecommendation.price a) as [x| | |] eqn:Ea;
        try contradiction.
      destruct (VehicleRecommendation.price b) as [y| | |] eqn:Eb;
        try contradiction.
      destruct (VehicleRecommendation.isTopMatch a),
               (VehicleRecommendation.isTopMatch b); cbn [andb negb];
        rewrite ?goes_after_one, ?goes_after_minus_one;
        try discriminate; try (intros _; split; [auto | discriminate]).
      all: rewrite sub_pos_ltb; cbn [ltb]; intros H; split; auto;
        intros _; exists y, x; repeat split;
        apply Qc_ltb_lt in H; now apply Qclt_le_weak.
    + apply Forall_forall. intros r Hr.
      destruct (Hmem r Hr) as [v [-> Hv]]. subst matching.
      apply filter_In in Hv. destruct Hv as [Hv _].
      apply In_locallyFilteredVehicles in Hv. destruct Hv as [Hfleet _].
      rewrite Forall_forall in Hfin. apply (Hfin v Hfleet).
Qed.

(** X8: the vehicles handed to the advisor are matching vehicles, and the
    list is empty only when nothing matches the preferences.  When no
    match is affordable the advisor gets three matches (all of them when
    there are fewer), and with finite prices these are the cheapest, in
    order of ascending price: the matches are the vehicles sent followed
    by the others, none of which is cheaper than a vehicle before it. *)
Theorem advisor_gets_the_cheapest_matches
    (userData : option UserData.t) :
  let matches := App.locallyFilteredVehicles TOYOTA_FLEET userData in
  let sent := App.vehiclesForGemini TOYOTA_FLEET userData in
  incl sent matches
  /\ (sent = [] <-> matches = [])
  /\ (filter (fun v => (ToyotaVehicle.price v
                        <=? App.max (App.affordablePriceRange userData))%num)
             matches = [] ->
      List.length sent = Nat.min 3 (List.length matches)
      /\ (Forall (fun v => is_finite (ToyotaVehicle.price v)) TOYOTA_FLEET ->
          exists others,
            Permutation matches (sent ++ others)
            /\ StronglySorted
                 (fun a b => (ToyotaVehicle.price a
                              <=? ToyotaVehicle.price b)%num = true)
                 (sent ++ others))).
Proof.
  cbv zeta. unfold App.vehiclesForGemini.
  set (matches := App.locallyFilteredVehicles TOYOTA_FLEET userData).
  set (affordable := filter _ matches).
  set (cheapest := JSArray.sort _ matches).
  assert (Hlen : List.length cheapest = List.length matches).
  { symmetry. apply Permutation_length, JSArray_sort_perm. }
  split; [| split].
  - destruct ((List.length affordable =? 0)%nat
              && (0 <? List.length matches)%nat).
    + intros v Hv. apply In_firstn in Hv.
      eapply Permutation_in; [symmetry; apply JSArray_sort_perm | exact Hv].
    + subst affordable. intros v Hv. now apply filter_In in Hv.
  - destruct (List.length affordable =? 0)%nat eqn:Ea;
      destruct (0 <? List.length matches)%nat eqn:Em; cbn [andb].
    + apply Nat.ltb_lt in Em. split.
      * intros E. apply (f_equal (@List.length _)) in E.
        rewrite length_firstn, Hlen in E. cbn [List.length] in E. lia.
      * intros E. rewrite E in Em. cbn in Em. lia.
    + apply Nat.ltb_ge in Em.
      assert (E : matches = []) by (destruct matches; [easy | cbn in Em; lia]).
      split; [auto |]. intros _. subst affordable. now rewrite E.
    + apply Nat.eqb_neq in Ea. split.
      * intros E. rewrite E in Ea. now cbn in Ea.
      * intros E. subst affordable. rewrite E in Ea. now cbn in Ea.
    + apply Nat.eqb_neq in Ea. split.
      * intros E. rewrite E in Ea. now cbn in Ea.
      * intros E. subst affordable. rewrite E in Ea. now cbn in Ea.
  - intros E. rewrite E. cbn [List.length Nat.eqb andb]. split.
    { destruct (0 <? List.length matches)%nat eqn:Em.
      + now rewrite length_firstn, Hlen.
      + apply Nat.ltb_ge in Em. cbn [List.length]. lia. }
    intros Hfin.
    assert (Hsorted : StronglySorted
              (fun a b => (ToyotaVehicle.price a
                           <=? ToyotaVehicle.price b)%num = true) cheapest).
    { apply (StronglySorted_weaken
               (fun a b => exists x y : Qc,
                    ToyotaVehicle.price a = Fin x
                    /\ ToyotaVehicle.price b = Fin y /\ (x <= y)%Qc)).
      { intros v w (x & y & Hv & Hw & Hxy). rewrite Hv, Hw. cbn [leb].
        now apply Qc_leb_le. }
      subst cheapest.
      apply (JSArray_sort_sorted _ _
               (fun v => is_finite (ToyotaVehicle.price v))).
      - intros u v w (x & y & Hu & Hv & Hxy) (y' & z & Hv' & Hw & Hyz).
        rewrite Hv in Hv'. injection Hv' as <-.
        exists x, z. repeat split; auto. now apply Qcle_trans with y.
      - intros v w Pv Pw. cbv beta. rewrite sub_pos_ltb.
        destruct (ToyotaVehicle.price v) as [x| | |]; try contradiction.
        destruct (ToyotaVehicle.price w) as [y| | |]; try contradiction.
        cbn [ltb]. intros H. exists x, y. repeat split.
        now apply Qc_ltb_ge in H.
      - intros v w Pv Pw. cbv beta. rewrite sub_pos_ltb.
        destruct (ToyotaVehicle.price v) as [x| | |]; try contradiction.
        destruct (ToyotaVehicle.price w) as [y| | |]; try contradiction.
        cbn [ltb]. intros H. exists y, x. repeat split.
        apply Qc_ltb_lt in H. now apply Qclt_le_weak.
      - apply Forall_forall. intros v Hv. subst matches.
        rewrite Forall_forall in Hfin. apply Hfin.
        destruct userData as [ud |]; [| contradiction].
        now apply In_locallyFilteredVehicles in Hv. }
    destruct (0 <? List.length matches)%nat eqn:Em.
    + exists (skipn 3 cheapest). rewrite firstn_skipn.
      split; [apply JSArray_sort_perm | exact Hsorted].
    + apply Nat.ltb_ge in Em.
      assert (E0 : matches = [])
        by (destruct matches; [easy | cbn in Em; lia]).
      exists []. rewrite E0. split; constructor.
Qed.

(** X9: ticking a style box through [setUserInput] narrows the matching
    vehicles when it is the first box to be ticked (an empty selection
    matches every style) and widens them when another box is ticked
    already. *)
Theorem checking_a_style_box (ud : UserData.t) (value : string) :
  let ticked :=
    App.setUserInput
      (FinanceControls.handlePrefChange FinanceControls.CStyle value true)
      (Some ud) in
  (UserInput.preferences_style (UserData.userInput ud) = [] ->
   incl (App.locallyFilteredVehicles TOYOTA_FLEET ticked)
        (App.locallyFilteredVehicles TOYOTA_FLEET (Some ud)))
  /\ (UserInput.preferences_style (UserData.userInput ud) <> [] ->
      incl (App.locallyFilteredVehicles TOYOTA_FLEET (Some ud))
           (App.locallyFilteredVehicles TOYOTA_FLEET ticked)).
Proof.
  cbv zeta. unfold App.locallyFilteredVehicles, App.setUserInput.
  cbn [UserData.with_userInput UserData.userInput
       FinanceControls.handlePrefChange UserInput.preferences_style
       UserInput.preferences_useCase UserInput.minSeats
       FinanceControls.newPrefs].
  split; intros Hs v Hv; apply filter_In in Hv; destruct Hv as [Hin Hv];
    apply filter_In; (split; [exact Hin |]).
  - rewrite Hs. cbn [List.length Nat.eqb orb].
    apply andb_prop in Hv. destruct Hv as [Hv Hseats].
    apply andb_prop in Hv. destruct Hv as [_ Huse].
    now rewrite Huse, Hseats.
  - apply andb_prop in Hv. destruct Hv as [Hv Hseats].
    apply andb_prop in Hv. destruct Hv as [Hstyle Huse].
    rewrite Huse, Hseats, !andb_true_r.
    destruct (UserInput.preferences_style (UserData.userInput ud))
      as [| s0 rest] eqn:E; [congruence |].
    cbn [List.length Nat.eqb orb] in Hstyle.
    apply orb_true_iff. right. unfold JSArray.includes in *.
    rewrite existsb_app. now rewrite Hstyle.
Qed.
End Recommendations.

(** ** The credit score field *)

Section CreditScore.
Local Open Scope Qc_scope.

Lemma clamp_Fin (v : Qc) :
  exists c : Qc,
    FinanceControls.handleCreditScoreChange (Fin v) = Fin c
    /\ zQc 300 <= c /\ c <= zQc 850
    /\ (zQc 300 <= v -> v <= zQc 850 -> c = v).
Proof.
  unfold FinanceControls.handleCreditScoreChange. rewrite !of_Z_zQc.
  assert (H38 : Qc_leb (zQc 300) (zQc 850) = true) by reflexivity.
  cbn [Math_min Math_max leb].
  destruct (Qc_leb (zQc 850) v) eqn:E1.
  - rewrite H38. exists (zQc 850). split; [reflexivity |].
    split; [now apply Qc_leb_le |]. split; [apply Qcle_refl |].
    intros _ H. apply Qc_leb_le in E1. now apply Qcle_antisym.
  - destruct (Qc_leb (zQc 300) v) eqn:E2.
    + exists v. split; [reflexivity |]. split; [now apply Qc_leb_le |].
      split; [| reflexivity]. apply Qclt_le_weak. now apply Qc_leb_gt.
    + exists (zQc 300). split; [reflexivity |].
      split; [apply Qcle_refl |]. split; [now apply Qc_leb_le |].
      intros H _. apply Qc_leb_gt in E2. exfalso.
      now apply (Qcle_not_lt _ _ H).
Qed.
End CreditScore.

(** X10: the score that [handleCreditScoreChange] stores for a value
    that is a number lies between 300 and 850; a value inside that range
    is stored as it is, and clamping twice is clamping once. *)
Theorem credit_score_is_clamped (value : number) :
  value <> NaN ->
  (of_Z 300 <=? FinanceControls.handleCreditScoreChange value)%num = true
  /\ (FinanceControls.handleCreditScoreChange value <=? of_Z 850)%num = true
  /\ ((of_Z 300 <=? value)%num = true -> (value <=? of_Z 850)%num = true ->
      FinanceControls.handleCreditScoreChange value = value)
  /\ FinanceControls.handleCreditScoreChange
       (FinanceControls.handleCreditScoreChange value)
     = FinanceControls.handleCreditScoreChange value.
Proof.
  intros Hn. destruct value as [v | | |]; try congruence.
  - destruct (clamp_Fin v) as (c & Hc & H3 & H8 & Hid). rewrite !Hc.
    rewrite !of_Z_zQc. cbn [leb].
    split; [now apply Qc_leb_le |]. split; [now apply Qc_leb_le |]. split.
    + intros A B. f_equal. apply Hid; now apply Qc_leb_le.
    + destruct (clamp_Fin c) as (c' & Hc' & _ & _ & Hid'). rewrite Hc'.
      f_equal. now apply Hid'.
  - repeat split; try reflexivity; intros; discriminate.
  - repeat split; try reflexivity; intros; discriminate.
Qed.

Lemma credit_score_is_clamped_witness :
  (FinanceControls.handleCreditScoreChange (of_Z 900) <=? of_Z 850)%num
  = true.
Proof.
  assert (H : of_Z 900 <> NaN) by discriminate.
  exact (proj1 (proj2 (credit_score_is_clamped (of_Z 900) H))).
Defined.

(** ** Saved plans *)

Section SavedPlansFacts.

Lemma find_filtered_out (id : string) (l : list SavedAlignment.t) :
  find (fun a => String.eqb (SavedAlignment.id a) id)
       (filter (fun a => negb (String.eqb (SavedAlignment.id a) id)) l)
  = None.
Proof.
  induction l as [| a l IH]; [reflexivity |]. cbn [filter].
  destruct (String.eqb (SavedAlignment.id a) id) eqn:E; cbn [negb];
    [exact IH |].
  cbn [find]. now rewrite E.
Qed.
End SavedPlansFacts.

(** X11: [handleSaveAlignment] keeps every saved plan and adds the new
    one: the stored list is a permutation of the new plan followed by the
    old ones.  When every time stamp parses to a finite time (the
    comparator is then consistent) the list is sorted with the newest
    first; and if, besides, the new plan is not older than any plan of an
    already sorted list, it is put at the front and the rest is
    untouched. *)
Theorem handleSaveAlignment_sorts_newest_first
    (Date_parse : string -> number)
    (alignment : SavedAlignment.t) (prev : UserData.t) :
  exists next,
    App.handleSaveAlignment Date_parse alignment (Some prev) = Some next
    /\ Permutation (alignment :: UserData.savedAlignments prev)
                   (UserData.savedAlignments next)
    /\ (Forall (fun a => is_finite (Date_parse (SavedAlignment.savedAt a)))
               (alignment :: UserData.savedAlignments prev) ->
        StronglySorted (notOlder Date_parse) (UserData.savedAlignments next)
        /\ (StronglySorted (notOlder Date_parse)
                           (alignment :: UserData.savedAlignments prev) ->
            UserData.savedAlignments next
            = alignment :: UserData.savedAlignments prev)).
Proof.
  eexists. split; [reflexivity |].
  cbn [UserData.with_savedAlignments UserData.savedAlignments].
  split; [apply JSArray_sort_perm |]. intros Hfin. split.
  - apply (StronglySorted_weaken
             (fun a b =>
                exists x y : Qc,
                  Date_parse (SavedAlignment.savedAt a) = Fin x
                  /\ Date_parse (SavedAlignment.savedAt b) = Fin y
                  /\ (y <= x)%Qc)).
    { intros a b (x & y & Ha & Hb & Hxy). unfold notOlder.
      rewrite Ha, Hb. cbn [ltb]. now apply Qc_ltb_ge. }
    apply (JSArray_sort_sorted _ _
             (fun a => is_finite (Date_parse (SavedAlignment.savedAt a))));
      [| | | exact Hfin].
    + intros a b c (x & y & Ha & Hb & Hxy) (y' & z & Hb' & Hc & Hyz).
      rewrite Hb in Hb'. injection Hb' as <-.
      exists x, z. repeat split; auto. now apply Qcle_trans with y.
    + intros a b Pa Pb. rewrite sub_pos_ltb.
      destruct (Date_parse (SavedAlignment.savedAt a)) as [x| | |];
        try contradiction.
      destruct (Date_parse (SavedAlignment.savedAt b)) as [y| | |];
        try contradiction.
      cbn [ltb]. intros H. exists x, y. repeat split. now apply Qc_ltb_ge.
    + intros a b Pa Pb. rewrite sub_pos_ltb.
      destruct (Date_parse (SavedAlignment.savedAt a)) as [x| | |];
        try contradiction.
      destruct (Date_parse (SavedAlignment.savedAt b)) as [y| | |];
        try contradiction.
      cbn [ltb]. intros H. exists y, x. repeat split.
      apply Qc_ltb_lt in H. now apply Qclt_le_weak.
  - intros Hs. apply JSArray_sort_of_sorted.
    eapply StronglySorted_weaken; [| exact Hs].
    intros a b H. rewrite sub_pos_ltb. exact H.
Qed.

(** X12: [handleDeleteAlignment] removes every saved plan with the given
    id and no other: what is left are the plans with another id, a second
    deletion changes nothing, and the input, the conversations and the
    obligations are as they were, so an obligation outlives the deletion
    of the plan it was committed from. *)
Theorem handleDeleteAlignment_spec (id : string) (prev : UserData.t) :
  exists next,
    App.handleDeleteAlignment id (Some prev) = Some next
    /\ (forall a, In a (UserData.savedAlignments next)
                  <-> In a (UserData.savedAlignments prev)
                      /\ SavedAlignment.id a <> id)
    /\ App.findAlignment id next = None
    /\ App.handleDeleteAlignment id (Some next) = Some next
    /\ UserData.userInput next = UserData.userInput prev
    /\ UserData.chatbotConversations next = UserData.chatbotConversations prev
    /\ UserData.activeLoans next = UserData.activeLoans prev.
Proof.
  eexists. split; [reflexivity |].
  cbn [UserData.with_savedAlignments UserData.savedAlignments
       UserData.userInput UserData.chatbotConversations
       UserData.activeLoans].
  split; [| split; [| split]]; [| | | auto].
  - intros a. rewrite filter_In, negb_true_iff, String.eqb_neq. reflexivity.
  - apply find_filtered_out.
  - unfold App.handleDeleteAlignment, UserData.with_savedAlignments.
    cbn [UserData.savedAlignments UserData.userInput
         UserData.chatbotConversations UserData.activeLoans].
    now rewrite filter_filter_same.
Qed.

(** X13: a plan can be committed only while it is saved: after
    [handleDeleteAlignment id] a commit of [id], and after
    [handleClearAllAlignments] a commit of any id, leaves the user data as
    it is and warns that the plan was not found. *)
Theorem commit_needs_the_saved_plan
    (now : JSDate.Date) (id : string) (prev : UserData.t) :
  (exists next,
     App.handleDeleteAlignment id (Some prev) = Some next
     /\ App.handleCommitAlignment now id (Some next)
        = (Some next, [App.plan_not_found]))
  /\ (exists next,
        App.handleClearAllAlignments (Some prev) = Some next
        /\ UserData.activeLoans next = UserData.activeLoans prev
        /\ forall anyId,
             App.handleCommitAlignment now anyId (Some next)
             = (Some next, [App.plan_not_found])).
Proof.
  split.
  - eexists. split; [reflexivity |]. apply commit_not_found.
    apply find_filtered_out.
  - eexists. split; [reflexivity |]. split; [reflexivity |].
    intros anyId. now apply commit_not_found.
Qed.

(** ** Obligations *)

Section LoanInvariants.
Variable now : JSDate.Date.

Lemma findAlignment_id alignmentId ud a :
  App.findAlignment alignmentId ud = Some a ->
  In a (UserData.savedAlignments ud) /\ SavedAlignment.id a = alignmentId.
Proof.
  intros H. apply find_some in H. destruct H as [Hin Hid].
  split; [exact Hin | now apply String.eqb_eq].
Qed.

Lemma loanExists_false a ud :
  App.loanExists a ud = false ->
  ~ In (SavedAlignment.id a) (map ActiveLoan.id (UserData.activeLoans ud)).
Proof.
  unfold App.loanExists. intros H Hin.
  apply in_map_iff in Hin. destruct Hin as [loan [Hid Hin]].
  assert (E : existsb
                (fun loan => String.eqb (ActiveLoan.id loan)
                                        (SavedAlignment.id a))
                (UserData.activeLoans ud) = true).
  { apply existsb_exists. exists loan. split; [exact Hin |].
    now apply String.eqb_eq. }
  congruence.
Qed.

Lemma payLoan_id loanId amount loan :
  ActiveLoan.id (App.payLoan now loanId amount loan) = ActiveLoan.id loan.
Proof.
  unfold App.payLoan.
  destruct (String.eqb (ActiveLoan.id loan) loanId); [| reflexivity].
  destruct (ActiveLoan.planType loan); reflexivity.
Qed.

Lemma map_id_payLoan loanId amount loans :
  map ActiveLoan.id (map (App.payLoan now loanId amount) loans)
  = map ActiveLoan.id loans.
Proof.
  rewrite map_map. apply map_ext. intros loan. apply payLoan_id.
Qed.

Lemma with_activeLoans_same ud :
  UserData.with_activeLoans ud (UserData.activeLoans ud) = ud.
Proof. now destruct ud. Qed.

Lemma newLoan_start_and_day count a :
  ActiveLoan.loanStartDate (App.newLoan now count a) = now
  /\ ActiveLoan.paymentDayOfMonth (App.newLoan now count a)
     = JSDate.getDate now.
Proof. unfold App.newLoan. destruct (SavedAlignment.plan a); now split. Qed.

Lemma newLoan_leasing count a p :
  SavedAlignment.plan a = Leasing p ->
  App.newLoan now count a
  = ActiveLoan.mk (SavedAlignment.id a)
      (ToyotaVehicle.model (SavedAlignment.vehicle a))
      (ToyotaVehicle.image (SavedAlignment.vehicle a))
      (LeasingPlan.monthlyPayment p)
      (LeasingPlan.monthlyPayment p * of_Z (LeasingPlan.term p))%num now
      (LeasingPlan.term p) (JSDate.getDate now)
      (List.nth (Nat.modulo count (List.length App.GALAXY_COLORS))
                App.GALAXY_COLORS EmptyString)
      (of_Z 0) PLeasing None None.
Proof. intros H. unfold App.newLoan. now rewrite H. Qed.
End LoanInvariants.

(** X14: the ids of the obligations stay pairwise distinct.  A commit
    leaves the obligations as they are or appends one obligation built
    from a saved plan with the committed id, and never touches the saved
    plans; a payment keeps the ids of the obligations in their order. *)
Theorem loan_ids_stay_unique
    (now : JSDate.Date) (alignmentId loanId : string) (amount : number)
    (prev : UserData.t) :
  NoDup (map ActiveLoan.id (UserData.activeLoans prev)) ->
  (exists next,
     fst (App.handleCommitAlignment now alignmentId (Some prev)) = Some next
     /\ NoDup (map ActiveLoan.id (UserData.activeLoans next))
     /\ UserData.savedAlignments next = UserData.savedAlignments prev
     /\ (UserData.activeLoans next = UserData.activeLoans prev
         \/ exists a,
              In a (UserData.savedAlignments prev)
              /\ SavedAlignment.id a = alignmentId
              /\ UserData.activeLoans next
                 = UserData.activeLoans prev
                   ++ [App.newLoan now
                         (List.length (UserData.activeLoans prev)) a]))
  /\ (exists next,
        App.handleMakePayment now loanId amount (Some prev) = Some next
        /\ map ActiveLoan.id (UserData.activeLoans next)
           = map ActiveLoan.id (UserData.activeLoans prev)
        /\ NoDup (map ActiveLoan.id (UserData.activeLoans next))).
Proof.
  intros Hnd. split.
  - destruct (App.findAlignment alignmentId prev) as [a |] eqn:Ef.
    + destruct (App.loanExists a prev) eqn:El.
      * rewrite (commit_existing now _ _ _ Ef El). exists prev.
        repeat split; auto.
      * rewrite (commit_fresh now _ _ _ Ef El). eexists.
        split; [reflexivity |].
        cbn [UserData.with_activeLoans UserData.activeLoans
             UserData.savedAlignments].
        destruct (findAlignment_id _ _ _ Ef) as [Hin Hid].
        split; [| split; [reflexivity |]].
        -- rewrite map_app. cbn [map]. rewrite newLoan_id.
           apply NoDup_app; [exact Hnd | repeat constructor; intros [] |].
           intros x Hx [<- | []]. revert Hx. now apply loanExists_false.
        -- right. exists a. repeat split; auto.
    + rewrite (commit_not_found now _ _ Ef). exists prev. repeat split; auto.
  - eexists. split; [reflexivity |].
    cbn [UserData.with_activeLoans UserData.activeLoans].
    rewrite map_id_payLoan. split; [reflexivity | exact Hnd].
Qed.

Lemma loan_ids_stay_unique_witness :
  exists next,
    fst (App.handleCommitAlignment Sample.jan31 "1706659200000-Camry"
           (Some Sample.dataA)) = Some next
    /\ NoDup (map ActiveLoan.id (UserData.activeLoans next)).
Proof.
  destruct (loan_ids_stay_unique Sample.jan31 "1706659200000-Camry"
              "1706659200000-Camry" (of_Z 100) Sample.dataA (NoDup_nil _))
    as [[next [H1 [H2 _]]] _].
  exists next. split; [exact H1 | exact H2].
Defined.

(** X15: a payment addressed to an id that no obligation has changes
    nothing at all. *)
Theorem payment_to_unknown_loan_changes_nothing
    (now : JSDate.Date) (loanId : string) (amount : number)
    (prev : UserData.t) :
  ~ In loanId (map ActiveLoan.id (UserData.activeLoans prev)) ->
  App.handleMakePayment now loanId amount (Some prev) = Some prev.
Proof.
  intros Hnot. unfold App.handleMakePayment. f_equal.
  transitivity (UserData.with_activeLoans prev (UserData.activeLoans prev));
    [| apply with_activeLoans_same].
  f_equal. rewrite <- (map_id (UserData.activeLoans prev)) at 2.
  apply map_ext_in. intros loan Hin. apply payLoan_other.
  intros E. apply Hnot. rewrite <- E. now apply in_map.
Qed.

Lemma payment_to_unknown_loan_changes_nothing_witness :
  App.handleMakePayment Sample.jan31 "no-such-loan" (of_Z 100)
                        (Some Sample.data100)
  = Some Sample.data100.
Proof.
  apply payment_to_unknown_loan_changes_nothing.
  cbn. intros [H | [H | []]]; discriminate H.
Defined.

(** X16: the colour given to a committed obligation is one of the seven
    colours of the palette, and the palette repeats after seven
    obligations. *)
Theorem committed_loan_colour_is_from_the_palette
    (now : JSDate.Date) (count : nat) (a : SavedAlignment.t) :
  In (ActiveLoan.color (App.newLoan now count a)) App.GALAXY_COLORS
  /\ ActiveLoan.color (App.newLoan now (count + 7) a)
     = ActiveLoan.color (App.newLoan now count a).
Proof.
  assert (E : forall c,
             ActiveLoan.color (App.newLoan now c a)
             = List.nth (Nat.modulo c (List.length App.GALAXY_COLORS))
                        App.GALAXY_COLORS EmptyString).
  { intros c. unfold App.newLoan. now destruct (SavedAlignment.plan a). }
  rewrite !E. split.
  - apply nth_In. apply Nat.mod_upper_bound. discriminate.
  - f_equal. change (List.length App.GALAXY_COLORS) with 7%nat.
    replace (count + 7)%nat with (count + 1 * 7)%nat by lia.
    apply Nat.Div0.mod_add.
Qed.

(** ** The payment form and the ledger *)

Section Cents.
Local Open Scope Qc_scope.

Lemma floorToCent_Fin (x : Qc) :
  PaymentModal.floorToCent (Fin x) = Fin (zQc (cents x) / zQc 100).
Proof.
  unfold PaymentModal.floorToCent, cents. rewrite (of_Z_zQc 100).
  cbn [mul Math_floor]. rewrite of_Z_zQc.
  apply div_finite. apply Qc_pos_neq, zQc_pos. lia.
Qed.

Lemma cents_spec (x : Qc) :
  zQc (cents x) / zQc 100 <= x /\ x < zQc (cents x + 1) / zQc 100.
Proof.
  unfold cents.
  pose proof (Qfloor_le (x * zQc 100)%Qc) as Hle.
  pose proof (Qlt_floor (x * zQc 100)%Qc) as Hlt.
  revert Hle Hlt. generalize (Qfloor (x * zQc 100)%Qc). intros k Hle Hlt.
  unfold zQc in *. split.
  - qc2q. apply Qle_shift_div_r; [reflexivity |].
    revert Hle. qc2q. intros Hle. exact Hle.
  - qc2q. apply Qlt_shift_div_l; [reflexivity |].
    revert Hlt. qc2q. intros Hlt. exact Hlt.
Qed.

Lemma cents_mono (x y : Qc) : x <= y -> (cents x <= cents y)%Z.
Proof.
  intros H. unfold cents. apply Qfloor_resp_le.
  unfold zQc. qc2q. apply Qmult_le_compat_r; [exact H | discriminate].
Qed.

Lemma cents_nonneg (x : Qc) : 0 <= x -> (0 <= cents x)%Z.
Proof.
  intros H. change 0%Z with (cents 0). now apply cents_mono.
Qed.

Lemma zQc_le (a b : Z) : (a <= b)%Z -> zQc a <= zQc b.
Proof. intros H. unfold zQc. qc2q. now rewrite <- Zle_Qle. Qed.

Lemma cents_div_le (a b : Z) :
  (a <= b)%Z -> zQc a / zQc 100 <= zQc b / zQc 100.
Proof.
  intros H. apply zQc_le in H. revert H.
  generalize (zQc a) (zQc b). intros p q H. unfold zQc. qc2q.
  apply Qle_shift_div_l; [reflexivity |].
  setoid_replace (this p / inject_Z 100 * inject_Z 100)%Q with (this p);
    [exact H | field; discriminate].
Qed.

Lemma floorToCent_nonneg (a : Qc) :
  0 <= a ->
  exists c, PaymentModal.floorToCent (Fin a) = Fin c /\ 0 <= c /\ c <= a.
Proof.
  intros Ha. exists (zQc (cents a) / zQc 100).
  split; [apply floorToCent_Fin |]. split; [| apply cents_spec].
  apply Qcdiv_nonneg; [| apply zQc_pos; lia].
  change 0 with (zQc 0). apply zQc_le. now apply cents_nonneg.
Qed.

Lemma Forall2_map_self {A} (R : A -> A -> Prop) (f : A -> A) l :
  (forall x, In x l -> R x (f x)) -> Forall2 R l (map f l).
Proof.
  induction l as [| x l IH]; intros H; cbn [map]; constructor.
  - apply H. now left.
  - apply IH. intros y Hy. apply H. now right.
Qed.

Lemma payLoan_lowers_balance now loanId (c L : Qc) loan :
  0 <= c ->
  ActiveLoan.planType loan = PFinancing ->
  ActiveLoan.amountLeft loan = Fin L ->
  0 <= L ->
  exists L',
    ActiveLoan.amountLeft (App.payLoan now loanId (Fin c) loan) = Fin L'
    /\ 0 <= L' /\ L' <= L.
Proof.
  intros Hc Hp HL HL0. unfold App.payLoan.
  destruct (String.eqb (ActiveLoan.id loan) loanId).
  - rewrite Hp. cbn [ActiveLoan.with_amountLeft ActiveLoan.amountLeft].
    rewrite HL. cbn [sub neg add]. rewrite Math_max_0_Fin.
    destruct (Qc_leb 0 (L + - c)) eqn:E.
    + eexists. split; [reflexivity |]. split; qc_arith; lra.
    + exists 0. split; [reflexivity |]. split; [apply Qcle_refl | exact HL0].
  - exists L. split; [exact HL |]. split; [exact HL0 | apply Qcle_refl].
Qed.

Lemma Math_min_Fin (x y : Qc) :
  Math_min (Fin x) (Fin y) = Fin (if Qc_leb x y then x else y).
Proof. unfold Math_min. cbn [leb]. now destruct (Qc_leb x y). Qed.

Lemma floorToCent_mono (x y : Qc) :
  x <= y ->
  (PaymentModal.floorToCent (Fin x) <=? PaymentModal.floorToCent (Fin y))%num
  = true.
Proof.
  intros H. rewrite !floorToCent_Fin. cbn [leb].
  apply Qc_leb_le, cents_div_le, cents_mono, H.
Qed.

Lemma floorToCent_at_least_a_cent (x : Qc) :
  Q2Qc (1 # 100) <= x ->
  (PaymentModal.amountMin <=? PaymentModal.floorToCent (Fin x))%num = true.
Proof.
  intros H. rewrite floorToCent_Fin.
  unfold PaymentModal.amountMin, lit, of_Q. cbn [leb]. apply Qc_leb_le.
  apply cents_mono in H.
  change (cents (Q2Qc (1 # 100))) with 1%Z in H.
  change (Q2Qc (1 # 100)) with (zQc 1 / zQc 100)%Qc.
  now apply cents_div_le.
Qed.

Lemma Qfloor_zQc (k : Z) : Qfloor (zQc k) = k.
Proof.
  unfold zQc. cbn [this Q2Qc].
  rewrite (Qfloor_comp _ _ (Qred_correct (inject_Z k))). apply Qfloor_Z.
Qed.

(** A whole number of cents lies a whole number of steps above [min]. *)
Lemma floorToCent_stepMatches (x : Qc) :
  PaymentModal.stepMatches (PaymentModal.floorToCent (Fin x)) = true.
Proof.
  rewrite floorToCent_Fin.
  unfold PaymentModal.stepMatches, PaymentModal.amountMin,
    PaymentModal.amountStep, lit, of_Q.
  cbn [sub neg add].
  assert (Hne : Q2Qc (1 # 100) <> 0) by discriminate.
  rewrite div_finite by exact Hne.
  assert (E : (zQc (cents x) / zQc 100 + - Q2Qc (1 # 100)) / Q2Qc (1 # 100)
              = zQc (cents x - 1)).
  { generalize (cents x). intros k. unfold zQc. apply Qc_is_canon. qc2q.
    unfold Z.sub. rewrite inject_Z_plus, inject_Z_opp. field. }
  rewrite E. cbn [Math_floor]. rewrite of_Z_zQc, Qfloor_zQc.
  cbn [eqb]. now apply Qc_eqb_eq.
Qed.
End Cents.

(** X17: [floorToCent] keeps the order of finite amounts and the sign
    of an amount that is not negative. *)
Theorem floorToCent_is_monotone (x y : Qc) :
  (x <= y)%Qc ->
  (PaymentModal.floorToCent (Fin x) <=? PaymentModal.floorToCent (Fin y))%num
  = true
  /\ ((0 <= x)%Qc -> nonNegative (PaymentModal.floorToCent (Fin x))).
Proof.
  intros Hxy. split.
  - now apply floorToCent_mono.
  - intros Hx. destruct (floorToCent_nonneg x Hx) as [c [Hc [Hc0 _]]].
    rewrite Hc. now apply nonNegative_Fin.
Qed.

Lemma floorToCent_is_monotone_witness :
  (PaymentModal.floorToCent (lit 4055 1000)
   <=? PaymentModal.floorToCent (lit 4149 1000))%num = true.
Proof.
  assert (H : (Q2Qc (4055 # 1000) <= Q2Qc (4149 # 1000))%Qc)
    by (apply Qc_leb_le; reflexivity).
  exact (proj1 (floorToCent_is_monotone (Q2Qc (4055 # 1000))
                  (Q2Qc (4149 # 1000)) H)).
Defined.

(** X18: a payment of a finite amount that goes through the form never
    raises a balance: after [handleSubmit] with the ledger's handler,
    every financing obligation with a finite balance that is not negative
    has a balance between zero and the old one. *)
Theorem form_payment_never_raises_a_balance
    (now : JSDate.Date) (loan : ActiveLoan.t) (amount : number)
    (prev : UserData.t) :
  is_finite amount ->
  exists next,
    PaymentModal.handleSubmit (App.handleMakePayment now) (Some loan) amount
                              (Some prev) = Some next
    /\ Forall2
         (fun old new =>
            forall L : Qc,
              ActiveLoan.planType old = PFinancing ->
              ActiveLoan.amountLeft old = Fin L ->
              (0 <= L)%Qc ->
              exists L', ActiveLoan.amountLeft new = Fin L'
                         /\ (0 <= L')%Qc /\ (L' <= L)%Qc)
         (UserData.activeLoans prev) (UserData.activeLoans next).
Proof.
  intros Hfin. destruct amount as [a | | |]; try contradiction.
  unfold PaymentModal.handleSubmit. rewrite of_Z_0. cbn [leb].
  destruct (Qc_leb a 0) eqn:Ea.
  - exists prev. split; [reflexivity |].
    rewrite <- (map_id (UserData.activeLoans prev)) at 2.
    apply Forall2_map_self. intros old _ L _ HL HL0. exists L.
    split; [exact HL |]. split; [exact HL0 | apply Qcle_refl].
  - assert (Ha : (0 <= a)%Qc) by (qc_arith; lra).
    destruct (floorToCent_nonneg a Ha) as [c [Hc [Hc0 _]]]. rewrite Hc.
    eexists. split; [reflexivity |].
    cbn [UserData.with_activeLoans UserData.activeLoans].
    apply Forall2_map_self. intros old _ L Hp HL HL0.
    now apply payLoan_lowers_balance.
Qed.

Lemma form_payment_never_raises_a_balance_witness :
  exists next,
    PaymentModal.handleSubmit (App.handleMakePayment Sample.jan31)
      (Some Sample.loan100) (lit 4055 100) (Some Sample.data100) = Some next.
Proof.
  destruct (form_payment_never_raises_a_balance Sample.jan31 Sample.loan100
              (lit 4055 100) Sample.data100 I) as [next [H _]].
  exists next. exact H.
Defined.

(** X19: the amount that the dialog proposes passes the constraints of
    its own amount field whenever the monthly payment and, for a financing
    obligation, the balance are from one cent to 10^9: a click on the
    submit button then hands that amount, floored to the cent once more by
    [handleSubmit], to the ledger. *)
Theorem proposed_amount_is_accepted_by_the_form
    (loan : ActiveLoan.t) (m L : Qc) :
  ActiveLoan.monthlyPayment loan = Fin m ->
  ActiveLoan.amountLeft loan = Fin L ->
  (Q2Qc (1 # 100) <= m)%Qc /\ (m <= zQc 1000000000)%Qc ->
  (ActiveLoan.planType loan = PFinancing ->
   (Q2Qc (1 # 100) <= L)%Qc /\ (L <= zQc 1000000000)%Qc) ->
  PaymentModal.amountFieldValid loan (PaymentModal.initialAmount loan) = true
  /\ (PaymentModal.initialAmount loan <=? PaymentModal.amountMax loan)%num
     = true
  /\ forall (S : Type) (submit : string -> number -> S -> S) (st : S),
       PaymentModal.submitForm submit (Some loan)
         (PaymentModal.initialAmount loan) st
       = submit (ActiveLoan.id loan)
           (PaymentModal.floorToCent (PaymentModal.initialAmount loan)) st.
Proof.
  intros Hm HL [Hm1 _] HL1.
  assert (Hx : exists x : Qc,
            PaymentModal.initialAmount loan = PaymentModal.floorToCent (Fin x)
            /\ (Q2Qc (1 # 100) <= x)%Qc
            /\ (PaymentModal.floorToCent (Fin x)
                <=? PaymentModal.amountMax loan)%num = true).
  { unfold PaymentModal.initialAmount, PaymentModal.amountMax.
    destruct (ActiveLoan.planType loan) eqn:Hp.
    - destruct (HL1 eq_refl) as [HL2 _]. clear HL1. rename HL2 into HL1.
      rewrite Hm, HL, Math_min_Fin.
      destruct (Qc_leb m L) eqn:E.
      + exists m. split; [reflexivity |]. split; [exact Hm1 |].
        apply floorToCent_mono. now apply Qc_leb_le.
      + exists L. split; [reflexivity |]. split; [exact HL1 |].
        apply floorToCent_mono, Qcle_refl.
    - rewrite Hm. exists m. split; [reflexivity |]. split; [exact Hm1 |].
      apply floorToCent_mono, Qcle_refl. }
  destruct Hx as (x & Hinit & Hx1 & Hmax).
  assert (Hvalid : PaymentModal.amountFieldValid loan
                     (PaymentModal.initialAmount loan) = true).
  { unfold PaymentModal.amountFieldValid. rewrite Hinit, Hmax.
    rewrite (floorToCent_at_least_a_cent x Hx1).
    now rewrite (floorToCent_stepMatches x). }
  split; [exact Hvalid |]. split; [now rewrite Hinit |].
  intros S submit st. unfold PaymentModal.submitForm. rewrite Hvalid.
  unfold PaymentModal.handleSubmit.
  rewrite amountMin_positive; [reflexivity |].
  rewrite Hinit. apply (floorToCent_at_least_a_cent x Hx1).
Qed.

Lemma proposed_amount_is_accepted_by_the_form_witness :
  PaymentModal.amountFieldValid Sample.loan100
    (PaymentModal.initialAmount Sample.loan100) = true.
Proof.
  assert (Hm : (Q2Qc (1 # 100) <= Q2Qc 500)%Qc
               /\ (Q2Qc 500 <= zQc 1000000000)%Qc)
    by (split; apply Qc_leb_le; reflexivity).
  assert (HL : (Q2Qc (1 # 100) <= Q2Qc 100)%Qc
               /\ (Q2Qc 100 <= zQc 1000000000)%Qc)
    by (split; apply Qc_leb_le; reflexivity).
  exact (proj1 (proposed_amount_is_accepted_by_the_form Sample.loan100
                  (Q2Qc 500) (Q2Qc 100) eq_refl eq_refl Hm (fun _ => HL))).
Defined.

(** ** The on-track evaluator and the obligations table *)

Section OnTrackFacts.
Local Open Scope Qc_scope.

Lemma Qcdiv_le_mono (x y m : Qc) : 0 < m -> x <= y -> x / m <= y / m.
Proof.
  intros Hm Hxy. qc_arith.
  apply Qle_shift_div_l; [exact Hm |].
  setoid_replace (this x / this m * this m)%Q with (this x); [exact Hxy |].
  field. intros E. rewrite E in Hm. now apply Qlt_irrefl in Hm.
Qed.
End OnTrackFacts.

(** X20: a payment of at least the balance pays a financing obligation
    off: the balance is zero, the obligation is on track at every later
    evaluation, and the pay button of its row is disabled. *)
Theorem paid_off_loan_is_on_track
    (now today : JSDate.Date) (loan : ActiveLoan.t) (L a : Qc) :
  ActiveLoan.planType loan = PFinancing ->
  ActiveLoan.amountLeft loan = Fin L ->
  (L <= a)%Qc ->
  let loan' := App.payLoan now (ActiveLoan.id loan) (Fin a) loan in
  ActiveLoan.amountLeft loan' = Fin 0
  /\ getOnTrackStatus today loan' = true
  /\ payDisabled today loan' = true.
Proof.
  intros Hp HL Hle loan'. subst loan'.
  rewrite payLoan_financing by auto. rewrite HL.
  cbn [sub neg add]. rewrite Math_max_0_Fin.
  assert (E : (if Qc_leb 0 (L + - a) then Fin (L + - a) else Fin 0)
              = Fin 0).
  { destruct (Qc_leb 0 (L + - a)) eqn:E0; [| reflexivity].
    f_equal. qc_arith. lra. }
  rewrite E. split; [reflexivity |].
  unfold getOnTrackStatus, payDisabled, isLease.
  cbn [ActiveLoan.planType ActiveLoan.with_amountLeft ActiveLoan.amountLeft].
  rewrite Hp. split; reflexivity.
Qed.

Lemma paid_off_loan_is_on_track_witness :
  getOnTrackStatus Sample.mar31
    (App.payLoan Sample.jan31 (ActiveLoan.id Sample.loan100)
                 (Fin (Q2Qc 150)) Sample.loan100)
  = true.
Proof.
  assert (H : (Q2Qc 100 <= Q2Qc 150)%Qc) by (apply Qc_leb_le; reflexivity).
  exact (proj1 (proj2
    (paid_off_loan_is_on_track Sample.jan31 Sample.mar31 Sample.loan100
       (Q2Qc 100) (Q2Qc 150) eq_refl eq_refl H))).
Defined.

(** X21: a lease is behind from the moment it is committed until its
    first payment: at the commit time the evaluator answers false, the
    table shows the monthly payment as the amount left and the pay button
    is enabled; after a payment at that time the evaluator answers true,
    the amount left is zero and the button is disabled. *)
Theorem committed_lease_starts_behind
    (now : JSDate.Date) (count : nat) (a : SavedAlignment.t)
    (p : LeasingPlan.t) (amount : number) :
  SavedAlignment.plan a = Leasing p ->
  let loan := App.newLoan now count a in
  let paid := App.payLoan now (ActiveLoan.id loan) amount loan in
  getOnTrackStatus now loan = false
  /\ payDisabled now loan = false
  /\ amountLeftDisplay now loan = LeasingPlan.monthlyPayment p
  /\ getOnTrackStatus now paid = true
  /\ payDisabled now paid = true
  /\ amountLeftDisplay now paid = of_Z 0.
Proof.
  intros Hp loan paid. subst loan paid.
  rewrite payLoan_leasing
    by (rewrite (newLoan_leasing _ _ _ _ Hp); reflexivity).
  rewrite (newLoan_leasing _ _ _ _ Hp).
  unfold getOnTrackStatus, payDisabled, amountLeftDisplay,
    paymentMadeThisMonth, isLease.
  cbn [ActiveLoan.planType ActiveLoan.lastPaymentMonth
       ActiveLoan.loanStartDate ActiveLoan.paymentDayOfMonth
       ActiveLoan.monthlyPayment ActiveLoan.with_lastPaymentMonth andb].
  rewrite !Z.eqb_refl, Z.ltb_irrefl. repeat split.
Qed.

Lemma committed_lease_starts_behind_witness :
  getOnTrackStatus Sample.jan31
    (App.newLoan Sample.jan31 0
       (SavedAlignment.mk "1706659200001-Corolla" Sample.camry Sample.input
          (Leasing (LeasingPlan.mk (of_Z 300) (of_Z 5300) 36 (lit 1 400)
                                   (of_Z 17600)))
          "2024-01-31T00:00:00.000Z"))
  = false.
Proof.
  exact (proj1
    (committed_lease_starts_behind Sample.jan31 0
       (SavedAlignment.mk "1706659200001-Corolla" Sample.camry Sample.input
          (Leasing (LeasingPlan.mk (of_Z 300) (of_Z 5300) 36 (lit 1 400)
                                   (of_Z 17600)))
          "2024-01-31T00:00:00.000Z")
       _ (of_Z 300) eq_refl)).
Defined.

(** X22: a payment never turns an obligation that is on track off track:
    for a financing obligation with a finite initial amount and balance
    and a positive monthly payment, if the evaluator answers true at
    [today] it still does after a payment of any amount that is not
    negative. *)
Theorem payment_keeps_on_track
    (now today : JSDate.Date) (loan : ActiveLoan.t) (L m x a : Qc) :
  ActiveLoan.planType loan = PFinancing ->
  ActiveLoan.initialLoanAmount loan = Some (Fin L) ->
  ActiveLoan.monthlyPayment loan = Fin m ->
  ActiveLoan.amountLeft loan = Fin x ->
  (0 < m)%Qc -> (0 <= a)%Qc ->
  getOnTrackStatus today loan = true ->
  getOnTrackStatus today
    (App.payLoan now (ActiveLoan.id loan) (Fin a) loan) = true.
Proof.
  intros Hp Hinit Hm Hx Hm0 Ha.
  rewrite payLoan_financing by auto.
  unfold getOnTrackStatus.
  cbn [ActiveLoan.planType ActiveLoan.with_amountLeft ActiveLoan.amountLeft
       ActiveLoan.initialLoanAmount ActiveLoan.monthlyPayment
       ActiveLoan.loanStartDate ActiveLoan.paymentDayOfMonth].
  rewrite Hp, Hx, Hinit, Hm. cbn [sub neg add]. rewrite Math_max_0_Fin.
  rewrite of_Z_0.
  set (due := if (JSDate.getDate today >=? ActiveLoan.paymentDayOfMonth loan)%Z
              then _ else _).
  clearbody due.
  assert (Hmne : Qc_eqb m 0 = false)
    by (apply Qc_eqb_neq; now apply Qc_pos_neq).
  destruct (Qc_leb 0 (x + - a)) eqn:E0; cbn [leb];
    [| intros _; reflexivity].
  destruct (Qc_leb x 0) eqn:Ex.
  { intros _. replace (Qc_leb (x + - a) 0) with true; [reflexivity |].
    symmetry. apply Qc_leb_le. qc_arith. lra. }
  destruct (Qc_leb (x + - a) 0); [reflexivity |].
  destruct (negb (truthy (Fin L))); [reflexivity |].
  destruct (due <=? 0)%Z; [reflexivity |].
  cbn [sub neg add div]. rewrite Hmne. unfold geb, of_Z, of_Q. cbn [leb].
  intros H. apply Qc_leb_le in H. apply Qc_leb_le.
  eapply Qcle_trans; [exact H |].
  apply Qcdiv_le_mono; [exact Hm0 |]. qc2q. lra.
Qed.

Lemma payment_keeps_on_track_witness :
  getOnTrackStatus Sample.jan31
    (App.payLoan Sample.jan31 (ActiveLoan.id Sample.loan100)
                 (Fin (Q2Qc 40)) Sample.loan100)
  = true.
Proof.
  assert (Hm : (0 < Q2Qc 500)%Qc) by (apply Qc_ltb_lt; reflexivity).
  assert (Ha : (0 <= Q2Qc 40)%Qc) by (apply Qc_leb_le; reflexivity).
  apply (payment_keeps_on_track Sample.jan31 Sample.jan31 Sample.loan100
           (Q2Qc 6000) (Q2Qc 500) (Q2Qc 100) (Q2Qc 40)
           eq_refl eq_refl eq_refl eq_refl Hm Ha).
  vm_compute. reflexivity.
Defined.

(** ** More calendar arithmetic *)

Local Open Scope Z_scope.

Section MonthSteps.
Import JSDate.

Lemma MakeDay_date y m d k : MakeDay y m (d + k) = MakeDay y m d + k.
Proof. unfold MakeDay. cbv zeta. lia. Qed.

Lemma MakeDay_next_month y m d :
  MakeDay y (m + 1) d = MakeDay y m d + DaysInMonth (y + m / 12) (m mod 12).
Proof.
  rewrite <- MakeDay_date.
  rewrite (MakeDay_carry y (m + 1)), (MakeDay_carry y m).
  rewrite (MakeDay_overflow (y + m / 12) (m mod 12)) by zdiv.
  replace (d + DaysInMonth (y + m / 12) (m mod 12)
           - DaysInMonth (y + m / 12) (m mod 12)) with d by lia.
  f_equal; zdiv.
Qed.

Lemma MakeDay_month_mono y m d (k : nat) :
  MakeDay y m d <= MakeDay y (m + Z.of_nat k) d.
Proof.
  induction k as [| k IH]; [rewrite Z.add_0_r; lia |].
  replace (m + Z.of_nat (S k)) with (m + Z.of_nat k + 1) by lia.
  rewrite MakeDay_next_month.
  pose proof (DaysInMonth_bounds (y + (m + Z.of_nat k) / 12)
                                 ((m + Z.of_nat k) mod 12)).
  lia.
Qed.

Lemma newDate_next_month year month date :
  exists D, 28 <= D <= 31
            /\ newDate year (month + 1) date
               = newDate year month date + D * msPerDay.
Proof.
  unfold newDate. cbv zeta.
  set (yr := if (0 <=? year) && (year <=? 99) then 1900 + year else year).
  exists (DaysInMonth (yr + month / 12) (month mod 12)).
  split; [apply DaysInMonth_bounds |].
  rewrite MakeDay_next_month. unfold MakeDate. lia.
Qed.

Lemma MakeDay_small_month y mn d :
  0 <= mn <= 11 ->
  MakeDay y mn d = DayFromYear y + daysBeforeMonth mn (leapDays y) + d - 1.
Proof.
  intros H. unfold MakeDay. cbv zeta.
  rewrite Z.div_small, Z.mod_small, Z.add_0_r by lia. reflexivity.
Qed.

Lemma leapDays_InLeapYear t : leapDays (YearFromTime t) = InLeapYear t.
Proof.
  unfold leapDays, InLeapYear.
  pose proof (DaysInYear_bounds (YearFromTime t)).
  destruct (Z.eqb_spec (DaysInYear (YearFromTime t)) 366); lia.
Qed.

(** The calendar fields of a time give back its day. *)
Lemma MakeDay_of_fields t :
  MakeDay (YearFromTime t) (MonthFromTime t) (DateFromTime t) = Day t.
Proof.
  pose proof (MonthFromTime_range t) as Hm.
  rewrite MakeDay_small_month by exact Hm.
  rewrite leapDays_InLeapYear. unfold DateFromTime. cbv zeta.
  unfold DayWithinYear.
  generalize (InLeapYear t) (DayFromYear (YearFromTime t)) (Day t).
  revert Hm. generalize (MonthFromTime t). intros mn Hm l y0 d.
  assert (Hc : mn = 0 \/ mn = 1 \/ mn = 2 \/ mn = 3 \/ mn = 4 \/ mn = 5
               \/ mn = 6 \/ mn = 7 \/ mn = 8 \/ mn = 9 \/ mn = 10 \/ mn = 11)
    by lia.
  clear Hm.
  repeat (destruct Hc as [-> | Hc]; [cbv [daysBeforeMonth]; lia |]).
  subst mn. cbv [daysBeforeMonth]. lia.
Qed.

Lemma newDate_of_fields t :
  ~ (0 <= getFullYear t <= 99) ->
  newDate (getFullYear t) (getMonth t) (getDate t) = setHours t 0 0 0 0.
Proof.
  intros H. rewrite newDate_modern by exact H.
  unfold getFullYear, getMonth, getDate, setHours.
  now rewrite MakeDay_of_fields.
Qed.

Lemma DayWithinYear_bounds t :
  0 <= DayWithinYear t < 365 + InLeapYear t.
Proof.
  unfold DayWithinYear, YearFromTime.
  pose proof (yearFromDay_spec (Day t)) as H.
  rewrite DayFromYear_succ in H.
  rewrite <- leapDays_InLeapYear. unfold leapDays, YearFromTime. lia.
Qed.

Lemma DateFromTime_bounds t :
  1 <= DateFromTime t <= DaysInMonth (YearFromTime t) (MonthFromTime t).
Proof.
  pose proof (DayWithinYear_bounds t) as Hd.
  unfold DateFromTime, MonthFromTime. cbv zeta.
  assert (Hl : leapDays (YearFromTime t) = InLeapYear t)
    by apply leapDays_InLeapYear.
  assert (Hl01 : InLeapYear t = 0 \/ InLeapYear t = 1).
  { rewrite <- Hl. apply leapDays_cases. }
  revert Hd Hl Hl01.
  generalize (DayWithinYear t) (InLeapYear t) (YearFromTime t).
  intros d l y Hd Hl Hl01.
  repeat match goal with
         | |- context [?a <? ?b] => destruct (Z.ltb_spec a b)
         end;
    cbv [DaysInMonth]; rewrite ?Hl; lia.
Qed.

Lemma next_month_is_later t :
  Day t < MakeDay (YearFromTime t) (MonthFromTime t + 1) 1.
Proof.
  rewrite MakeDay_next_month.
  pose proof (MonthFromTime_range t) as Hm.
  rewrite Z.div_small, Z.mod_small, Z.add_0_r by lia.
  pose proof (MakeDay_of_fields t) as E.
  replace (DateFromTime t) with (1 + (DateFromTime t - 1)) in E by lia.
  rewrite MakeDay_date in E.
  pose proof (DateFromTime_bounds t). lia.
Qed.

Lemma three_months_later t :
  ~ (0 <= getFullYear t <= 99) ->
  t < newDate (getFullYear t) (getMonth t + 3) 1.
Proof.
  intros H. rewrite newDate_modern by exact H.
  unfold getFullYear, getMonth, MakeDate, MakeTime.
  pose proof (next_month_is_later t) as H1.
  pose proof (MakeDay_month_mono (YearFromTime t) (MonthFromTime t + 1) 1 2)
    as H2.
  replace (MonthFromTime t + 1 + Z.of_nat 2) with (MonthFromTime t + 3)
    in H2 by lia.
  revert H1 H2.
  generalize (MakeDay (YearFromTime t) (MonthFromTime t + 1) 1)
             (MakeDay (YearFromTime t) (MonthFromTime t + 3) 1).
  unfold Day, msPerDay. intros a b H1 H2. zdiv.
Qed.

Lemma setHours_midnight (d : Date) : setHours d 0 0 0 0 = Day d * msPerDay.
Proof. unfold setHours, MakeDate, MakeTime. lia. Qed.

Lemma setHours_mono (d1 d2 : Date) :
  d1 <= d2 -> setHours d1 0 0 0 0 <= setHours d2 0 0 0 0.
Proof.
  intros H. rewrite !setHours_midnight. unfold Day, msPerDay. zdiv.
Qed.
End MonthSteps.

(** ** More on the payment schedule *)

Section DueDates.

Lemma dueDate_succ loan i :
  exists D, 28 <= D <= 31
            /\ dueDate loan (i + 1) = dueDate loan i + D * JSDate.msPerDay.
Proof.
  unfold dueDate. rewrite Z.add_assoc. apply newDate_next_month.
Qed.

Lemma dueDate_lt loan i (k : nat) :
  dueDate loan i < dueDate loan (i + Z.of_nat (S k)).
Proof.
  induction k as [| k IH].
  - destruct (dueDate_succ loan i) as [D [HD E]].
    change (Z.of_nat 1) with 1. rewrite E. unfold JSDate.msPerDay. lia.
  - destruct (dueDate_succ loan (i + Z.of_nat (S k))) as [D [HD E]].
    replace (i + Z.of_nat (S (S k))) with (i + Z.of_nat (S k) + 1) by lia.
    rewrite E. revert IH.
    generalize (dueDate loan (i + Z.of_nat (S k))) (dueDate loan i).
    unfold JSDate.msPerDay. intros; lia.
Qed.

Lemma dueDate_strict_mono loan i j : i < j -> dueDate loan i < dueDate loan j.
Proof.
  intros H. replace j with (i + Z.of_nat (S (Z.to_nat (j - i - 1)))) by lia.
  apply dueDate_lt.
Qed.

Lemma loanEndDate_dueDate loan :
  loanEndDate loan = dueDate loan (ActiveLoan.loanTermInMonths loan).
Proof. unfold loanEndDate, dueDate. reflexivity. Qed.

Lemma dueDate_before_loanEndDate loan i :
  i < ActiveLoan.loanTermInMonths loan -> dueDate loan i < loanEndDate loan.
Proof.
  intros H. rewrite loanEndDate_dueDate. now apply dueDate_strict_mono.
Qed.

End DueDates.

(** X24: as time passes the schedule only loses rows: every row of the
    schedule computed at a later time is a row of the schedule computed at
    an earlier time. *)
Theorem schedule_only_shrinks_with_time
    (now1 now2 : JSDate.Date) (userVehicles : list ActiveLoan.t) :
  now1 <= now2 ->
  incl (allFuturePayments now2 userVehicles)
       (allFuturePayments now1 userVehicles).
Proof.
  intros H e He. apply In_allFuturePayments in He.
  destruct He as (loan & i & Hin & Hi & Hdue & ->).
  apply In_allFuturePayments. exists loan, i. repeat split; auto; try lia.
  pose proof (setHours_mono _ _ H) as Hm.
  revert Hdue Hm. generalize (dueDate loan i).
  generalize (JSDate.setHours now1 0 0 0 0) (JSDate.setHours now2 0 0 0 0).
  intros; lia.
Qed.

Lemma schedule_only_shrinks_with_time_witness :
  incl (allFuturePayments Sample.mar31 [Sample.loan100])
       (allFuturePayments Sample.jan31 [Sample.loan100]).
Proof.
  apply schedule_only_shrinks_with_time. vm_compute. discriminate.
Defined.

(** X25: the due dates of an obligation are strictly increasing in the
    month index: a later instalment is due later, and no two instalments
    of an obligation fall on the same day. *)
Theorem due_dates_strictly_increase (loan : ActiveLoan.t) (i j : Z) :
  (i < j <-> dueDate loan i < dueDate loan j)
  /\ (dueDate loan i = dueDate loan j -> i = j).
Proof.
  assert (Hlt : forall a b, dueDate loan a < dueDate loan b -> a < b).
  { intros a b H. destruct (Z.lt_ge_cases a b) as [Hab | Hge]; [exact Hab |].
    exfalso. destruct (Z.eq_dec a b) as [-> | Hne]; [lia |].
    pose proof (dueDate_strict_mono loan b a ltac:(lia)). lia. }
  split.
  - split; [apply dueDate_strict_mono | apply Hlt].
  - intros E. destruct (Z.lt_trichotomy i j) as [H | [H | H]]; [| exact H |].
    + pose proof (dueDate_strict_mono loan i j H). lia.
    + pose proof (dueDate_strict_mono loan j i H). lia.
Qed.

(** X27: an obligation committed at [now] (in a year after 99, with a term
    of at least one month) has its first instalment due on the day of the
    commit: the due date of month index 0 is local midnight of that day,
    and the schedule computed at [now] holds that row with the full term
    as the number of remaining payments. *)
Theorem first_instalment_is_due_on_the_commit_day
    (now : JSDate.Date) (count : nat) (a : SavedAlignment.t) :
  ~ (0 <= JSDate.getFullYear now <= 99) ->
  1 <= ActiveLoan.loanTermInMonths (App.newLoan now count a) ->
  let loan := App.newLoan now count a in
  dueDate loan 0 = JSDate.setHours now 0 0 0 0
  /\ In (Payment.mk (JSDate.setHours now 0 0 0 0) loan
                    (ActiveLoan.loanTermInMonths loan))
        (allFuturePayments now [loan]).
Proof.
  intros Hy Ht loan.
  assert (E : dueDate loan 0 = JSDate.setHours now 0 0 0 0).
  { unfold dueDate. subst loan.
    destruct (newLoan_start_and_day now count a) as [-> ->].
    rewrite Z.add_0_r. now apply newDate_of_fields. }
  split; [exact E |].
  apply In_allFuturePayments. exists loan, 0.
  split; [now left |]. split; [subst loan; lia |].
  rewrite E. split; [lia |]. now rewrite Z.sub_0_r.
Qed.

Lemma first_instalment_is_due_on_the_commit_day_witness :
  dueDate (App.newLoan Sample.jan31 0 Sample.alignmentA) 0
  = JSDate.setHours Sample.jan31 0 0 0 0.
Proof.
  refine (proj1 (first_instalment_is_due_on_the_commit_day
                   Sample.jan31 0 Sample.alignmentA _ _)).
  - vm_compute. intros [_ H]. apply H. reflexivity.
  - vm_compute. discriminate.
Defined.

(** ** Timeline settings and the drawn timeline *)

Section Settings.
Variable prevSettings : TimelineSettings.

Lemma palette_not_empty (index : nat) :
  List.nth (Nat.modulo index (List.length App.GALAXY_COLORS))
           App.GALAXY_COLORS EmptyString <> EmptyString.
Proof.
  assert (H : In (List.nth (Nat.modulo index (List.length App.GALAXY_COLORS))
                           App.GALAXY_COLORS EmptyString)
                 App.GALAXY_COLORS).
  { apply nth_In. apply Nat.mod_upper_bound. discriminate. }
  revert H. generalize (List.nth (Nat.modulo index
                                    (List.length App.GALAXY_COLORS))
                                 App.GALAXY_COLORS EmptyString).
  intros c H. cbn in H.
  repeat (destruct H as [<- | H]; [discriminate |]). destruct H.
Qed.

(** The loop of the effect, from any index and any settings built so
    far. *)
Lemma initSettings_fold (l : list ActiveLoan.t) :
  forall (k : nat) (acc : TimelineSettings) (key : string),
    let r :=
      fold_left
        (fun newSettings '(index, vehicle) =>
           let prev := prevSettings (ActiveLoan.id vehicle) in
           let palette :=
             List.nth (Nat.modulo index (List.length App.GALAXY_COLORS))
                      App.GALAXY_COLORS EmptyString in
           setSetting newSettings (ActiveLoan.id vehicle)
             (Setting.mk
                (match prev with
                 | Some s => Setting.visible s
                 | None => true
                 end)
                (match prev with
                 | Some s => if String.eqb (Setting.color s) EmptyString
                             then palette else Setting.color s
                 | None => palette
                 end)))
        (combine (seq k (List.length l)) l) acc in
    (~ In key (map ActiveLoan.id l) -> r key = acc key)
    /\ (In key (map ActiveLoan.id l) ->
        exists s, r key = Some s
                  /\ Setting.visible s = inheritedVisible prevSettings key
                  /\ Setting.color s <> EmptyString).
Proof.
  induction l as [| v l IH]; intros k acc key; cbv zeta.
  - cbn. split; [reflexivity | intros []].
  - cbn [List.length seq combine fold_left map In].
    match goal with
    | |- context [fold_left ?f _ (setSetting acc ?i ?s)] =>
        specialize (IH (S k) (setSetting acc i s) key); cbv zeta in IH;
        set (sv := s) in *
    end.
    destruct IH as [IHout IHin].
    destruct (in_dec string_dec key (map ActiveLoan.id l)) as [Hin | Hout].
    + split; [intros H; exfalso; apply H; now right |].
      intros _. now apply IHin.
    + rewrite (IHout Hout). unfold setSetting.
      destruct (String.eqb_spec key (ActiveLoan.id v)) as [-> | Hne].
      * split; [intros H; exfalso; apply H; now left |].
        intros _. exists sv. split; [reflexivity |]. subst sv.
        cbn [Setting.visible Setting.color]. unfold inheritedVisible.
        split; [reflexivity |].
        destruct (prevSettings (ActiveLoan.id v)) as [s |];
          [| apply palette_not_empty].
        destruct (String.eqb_spec (Setting.color s) EmptyString);
          [apply palette_not_empty | assumption].
      * split; [reflexivity |]. intros [E | Hin]; [congruence | contradiction].
Qed.
End Settings.

Section Timeline.

Lemma initSettings_visible userVehicles v :
  In v userVehicles ->
  exists s,
    initSettings userVehicles noSettings (ActiveLoan.id v) = Some s
    /\ Setting.visible s = true.
Proof.
  intros Hv.
  destruct (initSettings_fold noSettings userVehicles 0%nat noSettings
              (ActiveLoan.id v)) as [_ H].
  destruct (H (in_map _ _ _ Hv)) as (s & Hs & Hvis & _).
  exists s. split; [exact Hs | exact Hvis].
Qed.

Lemma allPayments_visible now vehicles settings :
  allPayments now vehicles settings
  = allFuturePayments now (filter (isVisible settings) vehicles).
Proof. reflexivity. Qed.

Lemma In_allPayments now vehicles settings e :
  In e (allPayments now vehicles settings)
  <-> In e (allFuturePayments now vehicles)
      /\ isVisible settings (Payment.vehicle e) = true.
Proof.
  rewrite allPayments_visible, !In_allFuturePayments. split.
  - intros (loan & i & Hin & Hi & Hdue & ->).
    apply filter_In in Hin. destruct Hin as [Hin Hvis].
    split; [| exact Hvis]. exists loan, i. repeat split; auto; apply Hi.
  - intros [(loan & i & Hin & Hi & Hdue & ->) Hvis].
    cbn [Payment.vehicle] in Hvis.
    exists loan, i. repeat split; auto; try apply Hi. apply filter_In. auto.
Qed.

(** The running maximum of [f] over an array. *)
Lemma fold_max_spec {A} (f : A -> Z) (l : list A) :
  forall acc,
    acc <= fold_left (fun m x => if f x >? m then f x else m) l acc
    /\ forall v, In v l ->
         f v <= fold_left (fun m x => if f x >? m then f x else m) l acc.
Proof.
  induction l as [| x l IH]; intros acc.
  - cbn. split; [lia | intros v []].
  - cbn [fold_left].
    destruct (IH (if f x >? acc then f x else acc)) as [IH1 IH2].
    assert (Hacc : acc <= (if f x >? acc then f x else acc)
                   /\ f x <= (if f x >? acc then f x else acc)).
    { destruct (Z.gtb_spec (f x) acc); lia. }
    split; [lia |].
    intros v [<- | Hv]; [lia | now apply IH2].
Qed.

Lemma latestEndDate_spec now vehicles settings :
  JSDate.setHours now 0 0 0 0 <= latestEndDate now vehicles settings
  /\ forall v, In v vehicles -> isVisible settings v = true ->
       loanEndDate v <= latestEndDate now vehicles settings.
Proof.
  unfold latestEndDate.
  destruct (fold_max_spec loanEndDate (filter (isVisible settings) vehicles)
              (JSDate.setHours now 0 0 0 0)) as [H1 H2].
  split; [exact H1 |]. intros v Hv Hvis. apply H2. apply filter_In. auto.
Qed.

Lemma endDate_later now vehicles settings :
  ~ (0 <= JSDate.getFullYear (latestEndDate now vehicles settings) <= 99) ->
  latestEndDate now vehicles settings < endDate now vehicles settings.
Proof. intros H. unfold endDate. now apply three_months_later. Qed.
End Timeline.

(** X28: the effect that rebuilds the timeline settings gives every
    obligation an entry and drops every other id; the entry keeps the
    visibility that the id had before (visible when it had none) and its
    colour is never the empty string. *)
Theorem initSettings_spec
    (prevSettings : TimelineSettings) (userVehicles : list ActiveLoan.t)
    (key : string) :
  (~ In key (map ActiveLoan.id userVehicles) ->
   initSettings userVehicles prevSettings key = None)
  /\ (In key (map ActiveLoan.id userVehicles) ->
      exists s,
        initSettings userVehicles prevSettings key = Some s
        /\ Setting.visible s = inheritedVisible prevSettings key
        /\ Setting.color s <> EmptyString).
Proof.
  apply (initSettings_fold prevSettings userVehicles 0%nat noSettings key).
Qed.

(** X29: the timeline draws exactly the rows of the schedule whose
    obligation is switched visible.  With the settings that the effect
    builds first, it draws the whole schedule; after the visibility of an
    obligation is toggled once, it draws the rows of all obligations with
    another id. *)
Theorem timeline_draws_the_visible_obligations
    (now : JSDate.Date) (userVehicles : list ActiveLoan.t)
    (settings : TimelineSettings) :
  (forall e,
     In e (allPayments now userVehicles settings)
     <-> In e (allFuturePayments now userVehicles)
         /\ isVisible settings (Payment.vehicle e) = true)
  /\ allPayments now userVehicles (initSettings userVehicles noSettings)
     = allFuturePayments now userVehicles
  /\ forall v,
       In v userVehicles ->
       exists hidden,
         handleToggleVisibility (ActiveLoan.id v)
           (initSettings userVehicles noSettings) = Some hidden
         /\ forall e,
              In e (allPayments now userVehicles hidden)
              <-> In e (allFuturePayments now userVehicles)
                  /\ ActiveLoan.id (Payment.vehicle e) <> ActiveLoan.id v.
Proof.
  split; [intros e; apply In_allPayments |].
  split.
  - rewrite allPayments_visible. f_equal. apply filter_all.
    intros v Hv. unfold isVisible.
    destruct (initSettings_visible userVehicles v Hv) as (s & -> & Hs).
    exact Hs.
  - intros v Hv.
    destruct (initSettings_visible userVehicles v Hv) as (s & Hs & Hvis).
    unfold handleToggleVisibility. rewrite Hs. eexists.
    split; [reflexivity |]. intros e. rewrite In_allPayments.
    split; intros [He H]; (split; [exact He |]).
    + unfold isVisible, setSetting in H.
      destruct (String.eqb_spec (ActiveLoan.id (Payment.vehicle e))
                                (ActiveLoan.id v)) as [E | Hne];
        [| exact Hne].
      cbn [Setting.visible] in H. rewrite Hvis in H. discriminate H.
    + unfold isVisible, setSetting.
      destruct (String.eqb_spec (ActiveLoan.id (Payment.vehicle e))
                                (ActiveLoan.id v)) as [E | Hne];
        [contradiction |].
      apply In_allFuturePayments in He.
      destruct He as (loan & i & Hin & _ & _ & ->).
      cbn [Payment.vehicle].
      destruct (initSettings_visible userVehicles loan Hin)
        as (s' & -> & Hs').
      exact Hs'.
Qed.

(** X30: the time axis of the timeline covers every row it draws: when
    the latest plan end date lies in a year after 99, every drawn row is
    due at or after the start of the axis (local midnight of today) and
    before its end (the first day of the third month after the latest
    plan end date). *)
Theorem time_axis_covers_every_payment
    (now : JSDate.Date) (vehicles : list ActiveLoan.t)
    (settings : TimelineSettings) (e : Payment.t) :
  ~ (0 <= JSDate.getFullYear (latestEndDate now vehicles settings) <= 99) ->
  In e (allPayments now vehicles settings) ->
  JSDate.setHours now 0 0 0 0 <= Payment.date e
  /\ Payment.date e < endDate now vehicles settings.
Proof.
  intros Hy He. apply In_allPayments in He. destruct He as [He Hvis].
  apply In_allFuturePayments in He.
  destruct He as (loan & i & Hin & Hi & Hdue & ->).
  cbn [Payment.vehicle Payment.date] in *.
  split; [exact Hdue |].
  pose proof (dueDate_before_loanEndDate loan i (proj2 Hi)) as Hlt.
  pose proof (endDate_later now vehicles settings Hy) as H3.
  destruct (latestEndDate_spec now vehicles settings) as [_ Hmax].
  specialize (Hmax loan Hin Hvis).
  revert Hlt H3 Hmax.
  generalize (dueDate loan i) (loanEndDate loan)
             (latestEndDate now vehicles settings)
             (endDate now vehicles settings).
  intros; lia.
Qed.

Lemma time_axis_covers_every_payment_witness :
  JSDate.newDate 2024 0 31
  < endDate Sample.jan31 [Sample.loan100]
            (initSettings [Sample.loan100] noSettings).
Proof.
  refine (proj2 (time_axis_covers_every_payment
            Sample.jan31 [Sample.loan100]
            (initSettings [Sample.loan100] noSettings)
            (Payment.mk (JSDate.newDate 2024 0 31) Sample.loan100 12) _ _)).
  - vm_compute. intros [_ H]. apply H. reflexivity.
  - vm_compute. left. reflexivity.
Defined.

Local Close Scope Z_scope.
